(** * DevBlog reporting script: wordpress-rest-api-fetcher.js

    A shallow embedding of the functions of
    [src/wordpress-rest-api-fetcher.js] and the properties of its
    specification.

    Modelling conventions.
    - A JavaScript string is a [string]: URLs, dates and file names are
      ASCII; [toLowerCase], the regular expressions and [parseInt] act on the
      ASCII range, a code unit above 127 is an opaque symbol.
    - A JavaScript number that the script handles is an integer or NaN
      ([jsnum]); rounding of integers beyond 2^53 is outside the model.
    - Library calls ([csv-parse], [axios], [Date]) are inputs of the model:
      the rows [parse] returns, the responses of the network, the conversion
      of a date. *)

From Stdlib Require Import Strings.String Strings.Ascii Lists.List Bool.Bool
  Arith.PeanoNat ZArith.ZArith micromega.Lia Sorting.Permutation
  Sorting.Sorted Numbers.DecimalString Numbers.DecimalPos.
Import ListNotations.

Local Open Scope string_scope.
Local Open Scope list_scope.

(** ** Characters and regular-expression classes *)

Module Chars.

Definition slash : ascii := "/"%char.
Definition dquote : ascii := "034"%char.
Definition pipe : ascii := "|"%char.

(** [\d] *)
Definition is_digit (c : ascii) : bool :=
  let n := nat_of_ascii c in (48 <=? n)%nat && (n <=? 57)%nat.

Definition is_upper (c : ascii) : bool :=
  let n := nat_of_ascii c in (65 <=? n)%nat && (n <=? 90)%nat.

Definition is_lower (c : ascii) : bool :=
  let n := nat_of_ascii c in (97 <=? n)%nat && (n <=? 122)%nat.

(** One code unit of [String.prototype.toLowerCase]. *)
Definition lower_char (c : ascii) : ascii :=
  if is_upper c then ascii_of_nat (nat_of_ascii c + 32) else c.

(** The complement of the class [[^a-z0-9-_]] under the flags [gi]. *)
Definition is_safe (c : ascii) : bool :=
  is_lower c || is_upper c || is_digit c
  || Ascii.eqb c "-"%char || Ascii.eqb c "_"%char.

(** [StrWhiteSpaceChar], which [parseInt] skips. *)
Definition is_space (c : ascii) : bool :=
  let n := nat_of_ascii c in ((9 <=? n)%nat && (n <=? 13)%nat) || (n =? 32)%nat.

End Chars.
Import Chars.

(** ** String primitives *)

Module Str.

(** [s.toLowerCase()] *)
Fixpoint toLowerCase (s : string) : string :=
  match s with
  | EmptyString => EmptyString
  | String c s' => String (lower_char c) (toLowerCase s')
  end.

(** [s.replace(/c$/, '')]: drop the last character when it is [c]. *)
Fixpoint strip_last_char (c : ascii) (s : string) : string :=
  match s with
  | EmptyString => EmptyString
  | String a EmptyString => if Ascii.eqb a c then EmptyString else s
  | String a s' => String a (strip_last_char c s')
  end.

(** [s.replace(/^c/, '')] *)
Definition strip_first_char (c : ascii) (s : string) : string :=
  match s with
  | String a s' => if Ascii.eqb a c then s' else s
  | EmptyString => EmptyString
  end.

(** [s.replace(/\/$/, '')] *)
Definition strip_trailing_slash (s : string) : string :=
  strip_last_char slash s.

(** [s.replace(/^"|"$/g, '')]: the leading quote, then the trailing quote
    of what remains. *)
Definition strip_quotes (s : string) : string :=
  strip_last_char dquote (strip_first_char dquote s).

(** [s.split('/')]; the empty string splits into one empty segment. *)
Fixpoint split_slash (s : string) : list string :=
  match s with
  | EmptyString => [EmptyString]
  | String c s' =>
      if Ascii.eqb c slash then EmptyString :: split_slash s'
      else match split_slash s' with
           | h :: t => String c h :: t
           | [] => [String c EmptyString]
           end
  end.

(** [parts.join(sep)] *)
Fixpoint join (sep : string) (parts : list string) : string :=
  match parts with
  | [] => EmptyString
  | [p] => p
  | p :: rest => p ++ sep ++ join sep rest
  end.

Fixpoint all_chars (f : ascii -> bool) (s : string) : bool :=
  match s with
  | EmptyString => true
  | String c s' => f c && all_chars f s'
  end.

(** Keep the characters that satisfy [f]: [s.replace(/[^...]/g, '')]. *)
Fixpoint keep_chars (f : ascii -> bool) (s : string) : string :=
  match s with
  | EmptyString => EmptyString
  | String c s' => if f c then String c (keep_chars f s') else keep_chars f s'
  end.

(** [s.replace(/\|/g, '&#124;')] *)
Fixpoint escape_pipes (s : string) : string :=
  match s with
  | EmptyString => EmptyString
  | String c s' =>
      if Ascii.eqb c pipe then "&#124;" ++ escape_pipes s'
      else String c (escape_pipes s')
  end.

(** [/^\d{4}$/.test(s)] *)
Definition is_year (s : string) : bool :=
  (String.length s =? 4)%nat && all_chars is_digit s.

(** [/^\d{1,2}$/.test(s)] *)
Definition is_short_number (s : string) : bool :=
  ((String.length s =? 1)%nat || (String.length s =? 2)%nat) && all_chars is_digit s.

End Str.
Import Str.

(** ** URL normalizer (lines 33-59) *)

(** [parts] of line 35. *)
Definition url_parts (url : string) : list string :=
  split_slash (strip_trailing_slash (toLowerCase url)).

(** [parts[i]] for an index within the array. *)
Definition part_at (parts : list string) (i : nat) : string :=
  nth i parts EmptyString.

(** The [for] loop of lines 38-56 from the index [i] on, with [normalized]
    as it stands; [fuel] bounds the number of iterations. A year is pushed at
    line 42; with a month after it the month is pushed, a following day is
    skipped and the iteration ends ([continue], after which the loop adds 1
    to [i]); without a month control falls through to line 55, which pushes
    the year once more. *)
Fixpoint normalize_loop (fuel : nat) (parts : list string) (i : nat)
  (normalized : list string) : list string :=
  match fuel with
  | O => normalized
  | S fuel' =>
      if (i <? List.length parts)%nat then
        let part := part_at parts i in
        if is_year part then
          let normalized1 := normalized ++ [part] in
          if (i + 1 <? List.length parts)%nat
             && is_short_number (part_at parts (i + 1))
          then
            let normalized2 := normalized1 ++ [part_at parts (i + 1)] in
            if (i + 2 <? List.length parts)%nat
               && is_short_number (part_at parts (i + 2))
            then normalize_loop fuel' parts (i + 2 + 1) normalized2
            else normalize_loop fuel' parts (i + 1 + 1) normalized2
          else normalize_loop fuel' parts (i + 1) (normalized1 ++ [part])
        else normalize_loop fuel' parts (i + 1) (normalized ++ [part])
      else normalized
  end.

(** Every iteration moves [i] forward, so [parts.length] iterations reach
    the end of the array ([normalize_loop_parts] below). *)
Definition normalizeUrl (url : string) : string :=
  let parts := url_parts url in
  join "/" (normalize_loop (List.length parts) parts 0 []).

(** ** JavaScript numbers and [parseInt] *)

Inductive jsnum : Type :=
| Num (z : Z)
| NaN.

Module ParseInt.

Fixpoint skip_spaces (s : string) : string :=
  match s with
  | String c s' => if is_space c then skip_spaces s' else s
  | EmptyString => EmptyString
  end.

Definition digit_value (c : ascii) : Z := Z.of_nat (nat_of_ascii c - 48).

(** The longest prefix of decimal digits, as a number; [None] when the
    prefix is empty. *)
Fixpoint digits (acc : option Z) (s : string) : option Z :=
  match s with
  | String c s' =>
      if is_digit c then
        digits (Some (10 * match acc with Some a => a | None => 0 end
                      + digit_value c)%Z) s'
      else acc
  | EmptyString => acc
  end.

Definition signed (sign : Z) (s : string) : jsnum :=
  match digits None s with
  | Some n => Num (sign * n)
  | None => NaN
  end.

End ParseInt.

(** [parseInt(s, 10)]: leading white space, an optional sign, the longest
    run of decimal digits; NaN when there is no digit. It never throws. *)
Definition parseInt (s : string) : jsnum :=
  match ParseInt.skip_spaces s with
  | String c s' =>
      if Ascii.eqb c "-"%char then ParseInt.signed (-1) s'
      else if Ascii.eqb c "+"%char then ParseInt.signed 1 s'
      else ParseInt.signed 1 (String c s')
  | EmptyString => NaN
  end.

(** [`${n}`] *)
Definition string_of_jsnum (n : jsnum) : string :=
  match n with
  | Num z => NilZero.string_of_int (Z.to_int z)
  | NaN => "NaN"
  end.

(** A string in a condition ([s ? a : b], [s || d]) is true unless empty. *)
Definition truthy (s : string) : bool :=
  match s with
  | EmptyString => false
  | String _ _ => true
  end.

(** [s || d] *)
Definition or_default (s d : string) : string := if truthy s then s else d.

(** ** The views mapping: a plain object used as a map *)

Module View.
Record t : Type := mk { title : string; views : jsnum }.
End View.

Module Obj.

(** An object created by [{}] whose properties hold view records: its own
    properties in insertion order, and the record its prototype was replaced
    by, if any ([None]: still [Object.prototype]). *)
Record t : Type := mk { own : list (string * View.t); proto : option View.t }.

Definition empty : t := mk [] None.

Fixpoint own_get (k : string) (l : list (string * View.t)) : option View.t :=
  match l with
  | [] => None
  | (k', v) :: l' => if String.eqb k' k then Some v else own_get k l'
  end.

(** Assignment to an own property: an existing key keeps its position, a new
    key goes last. *)
Fixpoint own_set (k : string) (v : View.t) (l : list (string * View.t))
  : list (string * View.t) :=
  match l with
  | [] => [(k, v)]
  | (k', v') :: l' =>
      if String.eqb k' k then (k, v) :: l' else (k', v') :: own_set k v l'
  end.

(** [o[k] = v] for an object value [v]: an own property is updated; failing
    that the key [__proto__] reaches the setter inherited from
    [Object.prototype], which replaces the prototype; any other key becomes
    a new own property. *)
Definition set (k : string) (v : View.t) (o : t) : t :=
  match own_get k (own o) with
  | Some _ => mk (own_set k v (own o)) (proto o)
  | None =>
      if String.eqb k "__proto__" then mk (own o) (Some v)
      else mk (own_set k v (own o)) (proto o)
  end.

(** [o[k]], as far as it yields a record stored by [set]. *)
Definition get (o : t) (k : string) : option View.t :=
  match own_get k (own o) with
  | Some v => Some v
  | None => if String.eqb k "__proto__" then proto o else None
  end.

(** An array index: a canonical decimal numeral below 2^32 - 1. *)
Definition array_index (k : string) : option N :=
  match k with
  | EmptyString => None
  | String c rest =>
      if all_chars is_digit k
         && (negb (Ascii.eqb c "0"%char) || String.eqb rest EmptyString)
      then
        let n := Z.to_N (match ParseInt.digits None k with
                         | Some z => z | None => 0%Z end) in
        if (n <? 4294967295)%N then Some n else None
      else None
  end.

Fixpoint insert_index (x : N * string) (l : list (N * string))
  : list (N * string) :=
  match l with
  | [] => [x]
  | y :: l' => if (fst x <=? fst y)%N then x :: l else y :: insert_index x l'
  end.

Fixpoint index_keys (ks : list string) : list (N * string) :=
  match ks with
  | [] => []
  | k :: ks' =>
      match array_index k with
      | Some n => insert_index (n, k) (index_keys ks')
      | None => index_keys ks'
      end
  end.

(** [Object.keys(o)]: array indices in ascending order, then the other keys
    in insertion order. *)
Definition keys (o : t) : list string :=
  let ks := map fst (own o) in
  map snd (index_keys ks)
  ++ filter (fun k => match array_index k with Some _ => false | None => true end) ks.

End Obj.

(** ** CSV importer (lines 66-92) *)

Module Csv.
Record t : Type := mk { viewsData : Obj.t; processed : nat; skipped : nat }.
End Csv.

(** [cleanUrl] of line 78. *)
Definition cleanUrl (url : string) : string :=
  strip_trailing_slash (strip_quotes url).

Definition row_record (title views : string) : View.t :=
  View.mk (strip_quotes title) (parseInt views).

(** One iteration of the loop of line 76. [const [title, views, url]] binds
    the first three fields of the row, [undefined] where the row is shorter;
    [url.replace] throws a TypeError on [undefined] before anything is
    assigned, and the [catch] counts the row as skipped. With three fields
    nothing in the [try] block throws. *)
Definition csv_row (acc : Csv.t) (row : list string) : Csv.t :=
  match row with
  | title :: views :: url :: _ =>
      Csv.mk (Obj.set (cleanUrl url) (row_record title views) (Csv.viewsData acc))
             (S (Csv.processed acc)) (Csv.skipped acc)
  | _ => Csv.mk (Csv.viewsData acc) (Csv.processed acc) (S (Csv.skipped acc))
  end.

(** [csvToJson], from the rows that [parse(csvContent, ...)] of csv-parse
    returns (an exception of [parse] leaves [csvToJson] before the loop).
    The result is the returned object together with the two counters that
    line 90 prints. *)
Definition csvToJson (records : list (list string)) : Csv.t :=
  fold_left csv_row records (Csv.mk Obj.empty 0 0).

(** ** Content fetcher (lines 99-152) *)

Definition BASE_URL : string := "https://developer.wordpress.org/news".
Definition POST_TYPES : list string := ["snippets"; "dev-blog-videos"; "posts"].

(** An item of [response.data], with the fields the script reads:
    [post.id], [post.title.rendered], [post.date],
    [post._embedded?.author?.[0]?.name] ([None] when the chain is cut short)
    and [post.link]. *)
Module Post.
Record t : Type := mk {
  id : Z;
  title_rendered : string;
  date : string;
  author_name : option string;
  link : string
}.
End Post.

(** The object pushed onto [allPosts] at line 136. *)
Module Entry.
Record t : Type := mk {
  id : Z;
  title : string;
  publication_date : string;
  author : string;
  url : string;
  type : string;
  views : jsnum
}.
End Entry.

(** The call [axios.get(url, { params })]. *)
Module Request.
Record t : Type := mk {
  url : string;
  page : Z;
  per_page : Z;
  _embed : string;
  after : option string
}.
End Request.

(** The promise [axios.get] returns: rejected (network error, status outside
    2xx) with a message, or resolved with [response.data]. *)
Inductive Response : Type :=
| Rejected (message : string)
| Resolved (data : list Post.t).

(** The argument object of [fetchWordPressPosts]; a field left out
    ([None]) takes the default of lines 102-105. [afterDate] is the
    [Date] as its [toISOString()]. *)
Module Options.
Record t : Type := mk {
  baseUrl : string;
  postTypes : list string;
  afterDate : option string;
  page : option Z;
  perPage : option Z;
  viewsData : option Obj.t
}.
End Options.

(** [matchedUrl] of lines 131-132. *)
Definition find_match (viewsData : Obj.t) (normalizedPostUrl : string)
  : option string :=
  find (fun url => String.eqb (normalizeUrl url) normalizedPostUrl)
       (Obj.keys viewsData).

(** [views] of line 134; [None] is the TypeError of reading [.views] of
    [undefined]. The condition is the truthiness of the string found. *)
Definition matched_views (viewsData : Obj.t) (matchedUrl : option string)
  : option jsnum :=
  match matchedUrl with
  | Some k =>
      if truthy k then
        match Obj.get viewsData k with
        | Some r => Some (View.views r)
        | None => None
        end
      else Some (Num 0)
  | None => Some (Num 0)
  end.

Definition author_or_unknown (name : option string) : string :=
  match name with
  | Some n => or_default n "Unknown"
  | None => "Unknown"
  end.

Section Fetcher.

(** The network: the state of the outside world and what a request does to
    it. *)
Variable World : Type.
Variable axios_get : World -> Request.t -> World * Response.

(** [new Date(d).toISOString().split('T')[0]], which depends on the host's
    date parser and time zone; [None] is the RangeError of an invalid
    date. *)
Variable iso_date : string -> option string.

(** The body of the loop of line 126 up to the object of line 136; [None]
    when it throws. *)
Definition format_post (viewsData : Obj.t) (postType : string) (post : Post.t)
  : option Entry.t :=
  let postUrl := Post.link post in
  let normalizedPostUrl := normalizeUrl postUrl in
  let matchedUrl := find_match viewsData normalizedPostUrl in
  match matched_views viewsData matchedUrl with
  | None => None
  | Some views =>
      match iso_date (Post.date post) with
      | None => None
      | Some publication_date =>
          Some (Entry.mk (Post.id post) (Post.title_rendered post)
                         publication_date
                         (author_or_unknown (Post.author_name post))
                         postUrl postType views)
      end
  end.

(** The loop of line 126: entries are pushed until the data is exhausted or
    an item throws, which leaves the loop for the [catch] of line 146. *)
Fixpoint push_posts (viewsData : Obj.t) (postType : string)
  (data : list Post.t) (allPosts : list Entry.t) : list Entry.t :=
  match data with
  | [] => allPosts
  | post :: data' =>
      match format_post viewsData postType post with
      | Some entry => push_posts viewsData postType data' (allPosts ++ [entry])
      | None => allPosts
      end
  end.

Definition request (o : Options.t) (postType : string) : Request.t :=
  Request.mk (Options.baseUrl o ++ "/wp-json/wp/v2/" ++ postType)
             (match Options.page o with Some p => p | None => 1%Z end)
             (match Options.perPage o with Some p => p | None => 100%Z end)
             "true"
             (Options.afterDate o).

Definition views_of (o : Options.t) : Obj.t :=
  match Options.viewsData o with Some v => v | None => Obj.empty end.

(** The loop of line 109; the [catch] of line 146 writes to the console and
    goes on with the next category. *)
Fixpoint fetch_loop (o : Options.t) (postTypes : list string)
  (w : World) (allPosts : list Entry.t) : World * list Entry.t :=
  match postTypes with
  | [] => (w, allPosts)
  | postType :: rest =>
      let (w', response) := axios_get w (request o postType) in
      match response with
      | Rejected _ => fetch_loop o rest w' allPosts
      | Resolved data =>
          fetch_loop o rest w' (push_posts (views_of o) postType data allPosts)
      end
  end.

Definition fetchWordPressPosts (o : Options.t) (w : World)
  : World * list Entry.t :=
  fetch_loop o (Options.postTypes o) w [].

(** The responses the calls of [fetch_loop] receive, in order. *)
Fixpoint responses (o : Options.t) (postTypes : list string) (w : World)
  : list (string * Response) :=
  match postTypes with
  | [] => []
  | postType :: rest =>
      let (w', response) := axios_get w (request o postType) in
      (postType, response) :: responses o rest w'
  end.

End Fetcher.

Arguments fetch_loop {World} axios_get iso_date o postTypes w allPosts.
Arguments fetchWordPressPosts {World} axios_get iso_date o w.
Arguments responses {World} axios_get o postTypes w.

(** ** Report renderer (lines 160-182) *)

(** [a.localeCompare(b)] on publication dates. The order of
    [localeCompare] is the collation of the host; on dates of the form
    dddd-dd-dd, which [toISOString] gives for the years 0000 to 9999
    (digits, and hyphens at the same two places), it is the order of the
    code units, and this is what the model holds. The properties that
    depend on the order are stated for dates of this form
    ([iso_dates] below). *)
Definition localeCompare (a b : string) : comparison := String.compare a b.

Definition by_date (a b : Entry.t) : comparison :=
  localeCompare (Entry.publication_date a) (Entry.publication_date b).

Section ArraySort.

Variable A : Type.
Variable cmp : A -> A -> comparison.

Fixpoint sort_insert (x : A) (l : list A) : list A :=
  match l with
  | [] => [x]
  | y :: l' =>
      match cmp x y with
      | Gt => y :: sort_insert x l'
      | _ => x :: l
      end
  end.

(** The contents [Array.prototype.sort] leaves in the array: the sort is
    stable (ECMAScript 2019), so the result does not depend on the
    algorithm; here each element is inserted before the elements after it
    that do not compare smaller. *)
Fixpoint sorted_contents (l : list A) : list A :=
  match l with
  | [] => []
  | x :: l' => sort_insert x (sorted_contents l')
  end.

End ArraySort.

Arguments sort_insert {A} cmp x l.
Arguments sorted_contents {A} cmp l.

(** Arrays of entries live in a store and are passed by reference. *)
Definition ref : Type := nat.
Definition Heap : Type := ref -> list Entry.t.

Definition heap_set (r : ref) (l : list Entry.t) (h : Heap) : Heap :=
  fun r' => if Nat.eqb r' r then l else h r'.

(** [arr.sort(cmp)] sorts the array in place and returns the same
    reference. *)
Definition Array_sort (cmp : Entry.t -> Entry.t -> comparison) (arr : ref)
  (h : Heap) : ref * Heap :=
  (arr, heap_set arr (sorted_contents cmp (h arr)) h).

Definition newline : string := String "010"%char EmptyString.

Definition markdown_header (inputDate : string) : list string :=
  [ "# Dev Blog News";
    ("## Posts Published After " ++ inputDate)%string;
    "";
    "| Date | Title | Author | Type | Views | Post ID |";
    "|------|-------|--------|------|-------|----------|" ].

(** The line pushed at line 176. *)
Definition markdown_row (post : Entry.t) : string :=
  let safeTitle :=
    ("[" ++ escape_pipes (Entry.title post) ++ "](" ++ Entry.url post ++ ")")%string in
  ("| " ++ Entry.publication_date post ++ " | " ++ safeTitle
   ++ " | " ++ Entry.author post ++ " | " ++ Entry.type post
   ++ " | " ++ string_of_jsnum (Entry.views post)
   ++ " | " ++ string_of_jsnum (Num (Entry.id post)) ++ " |")%string.

(** The lines of the report and the store after the call. *)
Definition markdown_lines (posts : ref) (inputDate : string) (h : Heap)
  : list string * Heap :=
  let (sortedPosts, h') := Array_sort by_date posts h in
  ((markdown_header inputDate ++ map markdown_row (h' sortedPosts))%list, h').

Definition generateMarkdownOutput (posts : ref) (inputDate : string) (h : Heap)
  : string * Heap :=
  let (markdown, h') := markdown_lines posts inputDate h in
  (join newline markdown, h').

(** ** Report file (lines 224-235 of [main]) *)

Definition safeFilename (dateInput : string) : string :=
  keep_chars is_safe ("devblognews-" ++ or_default dateInput "all").

(** The name passed to [fs.writeFile] at line 229. *)
Definition report_filename (dateInput : string) : string :=
  safeFilename dateInput ++ ".md".

(** The file [main] writes, name and contents, if any, and the store
    afterwards. *)
Definition write_report (posts : ref) (dateInput : string) (h : Heap)
  : option (string * string) * Heap :=
  if (0 <? List.length (h posts))%nat then
    let (markdown, h') :=
      generateMarkdownOutput posts (or_default dateInput "all") h in
    (Some (report_filename dateInput, markdown), h')
  else (None, h).

(** ** Auxiliary definitions of the proofs *)

(** The loop of [normalizeUrl] as a recursion on the segments that are left,
    [parts.slice(i)]: the result is what the remaining iterations push. *)
Fixpoint normalize_parts (parts : list string) : list string :=
  match parts with
  | [] => []
  | part :: rest =>
      if is_year part then
        match rest with
        | month :: rest1 =>
            if is_short_number month then
              match rest1 with
              | day :: rest2 =>
                  if is_short_number day
                  then part :: month :: normalize_parts rest2
                  else part :: month :: normalize_parts rest1
              | [] => part :: month :: normalize_parts rest1
              end
            else part :: part :: normalize_parts rest
        | [] => part :: part :: normalize_parts rest
        end
      else part :: normalize_parts rest
  end.

(** [/] does not occur in [s]. *)
Definition no_slash (s : string) : bool :=
  all_chars (fun c => negb (Ascii.eqb c slash)) s.

(** The first of the segments is a one- or two-digit number. *)
Definition head_short (parts : list string) : bool :=
  match parts with
  | p :: _ => is_short_number p
  | [] => false
  end.

(** What stripping one trailing slash does to the segments of a string: a
    last empty segment goes, unless it is the only one. *)
Fixpoint strip_tail (l : list string) : list string :=
  match l with
  | [] => []
  | [x] => if String.eqb x EmptyString then [] else [x]
  | x :: l' => x :: strip_tail l'
  end.

Definition strip_parts (l : list string) : list string :=
  match l with
  | [] => []
  | x :: l' => x :: strip_tail l'
  end.

(** The date groups of the segments are in the form [normalize_parts]
    leaves them in: every year is followed by a month, and what follows a
    year, a month and a discarded day is not a one- or two-digit number
    again. *)
Fixpoint dates_settled (parts : list string) : bool :=
  match parts with
  | [] => true
  | part :: rest =>
      if is_year part then
        match rest with
        | month :: rest1 =>
            if is_short_number month then
              match rest1 with
              | day :: rest2 =>
                  if is_short_number day
                  then negb (head_short rest2) && dates_settled rest2
                  else dates_settled rest1
              | [] => true
              end
            else false
        | [] => false
        end
      else dates_settled rest
  end.

(** The row has the three fields the loop reads. *)
Definition has_three (row : list string) : bool :=
  (3 <=? List.length row)%nat.

(** The key a row is stored under and the record stored, for a row of
    three fields or more. *)
Definition row_key (row : list string) : option string :=
  match row with
  | _ :: _ :: url :: _ => Some (cleanUrl url)
  | _ => None
  end.

Definition row_view (row : list string) : option View.t :=
  match row with
  | title :: views :: _ :: _ => Some (row_record title views)
  | _ => None
  end.

Definition row_has_key (k : string) (row : list string) : bool :=
  match row_key row with
  | Some k' => String.eqb k' k
  | None => false
  end.

(** The last of the rows stored under [k]. *)
Definition last_row (k : string) (records : list (list string))
  : option (list string) :=
  find (row_has_key k) (rev records).

(** [a] does not come after [b] in the order of the comparator. *)
Definition not_after {A : Type} (cmp : A -> A -> comparison) (a b : A) : Prop :=
  cmp a b <> Gt.

(** Ascending publication dates. *)
Definition date_le (a b : Entry.t) : Prop := not_after by_date a b.

Definition same_date (d : string) (e : Entry.t) : bool :=
  String.eqb (Entry.publication_date e) d.

(** A publication date of the form dddd-dd-dd. *)
Definition iso_date_shape (s : string) : bool :=
  match s with
  | String y1 (String y2 (String y3 (String y4 (String h1
      (String m1 (String m2 (String h2 (String d1 (String d2
        EmptyString))))))))) =>
      is_digit y1 && is_digit y2 && is_digit y3 && is_digit y4
      && Ascii.eqb h1 "-" && is_digit m1 && is_digit m2
      && Ascii.eqb h2 "-" && is_digit d1 && is_digit d2
  | _ => false
  end.

(** Every entry has a publication date of this form. *)
Definition iso_dates (posts : list Entry.t) : bool :=
  forallb (fun e => iso_date_shape (Entry.publication_date e)) posts.

(** What one category yields by itself: nothing for a rejected request, for
    a resolved one what the loop of line 126 pushes onto an empty array. *)
Definition category_result (iso_date : string -> option string)
  (viewsData : Obj.t) (c : string * Response) : list Entry.t :=
  match snd c with
  | Rejected _ => []
  | Resolved data => push_posts iso_date viewsData (fst c) data []
  end.

Definition resolved (c : string * Response) : bool :=
  match snd c with
  | Resolved _ => true
  | Rejected _ => false
  end.

(** Sample data of the examples. *)
Module Sample.

(** A date conversion for timestamps in UTC: the first ten characters. *)
Definition iso_date (d : string) : option string :=
  if (10 <=? String.length d)%nat then Some (substring 0 10 d) else None.

Definition snippet : Post.t :=
  Post.mk 4596 "Snippet: Conditionally unregister patterns"
          "2024-10-22T12:00:00" (Some "Justin Tadlock")
          "https://developer.wordpress.org/news/snippets/conditionally-unregister-patterns/".

Definition hybrid : Post.t :=
  Post.mk 4748 "Bridging the gap: Hybrid themes"
          "2024-12-03T12:00:00" (Some "Troy Chaplin")
          "https://developer.wordpress.org/news/2024/12/03/bridging-the-gap-hybrid-themes/".

Definition anonymous : Post.t :=
  Post.mk 4831 "What is new for developers?"
          "2024-12-10T12:00:00" None
          "https://developer.wordpress.org/news/2024/12/whats-new/".

(** A network on which the request for the videos fails. *)
Definition network (w : unit) (r : Request.t) : unit * Response :=
  if String.eqb (Request.url r) (BASE_URL ++ "/wp-json/wp/v2/snippets")
  then (w, Resolved [snippet])
  else if String.eqb (Request.url r) (BASE_URL ++ "/wp-json/wp/v2/posts")
  then (w, Resolved [hybrid; anonymous])
  else (w, Rejected "Request failed with status code 500").

Definition viewsData : Obj.t :=
  Csv.viewsData (csvToJson
    [ ["Bridging the gap: Hybrid themes"; "1975";
       "https://developer.wordpress.org/news/2024/12/bridging-the-gap-hybrid-themes"];
      ["Snippet: Conditionally unregister patterns"; "19";
       "https://developer.wordpress.org/news/snippets/conditionally-unregister-patterns/"] ]).

Definition options : Options.t :=
  Options.mk BASE_URL POST_TYPES None None None (Some viewsData).

(** A mapping with the empty key, from a row whose URL is a lone slash, and
    an item whose link is a lone slash. *)
Definition rootViews : Obj.t := Csv.viewsData (csvToJson [ ["Home"; "42"; "/"] ]).

Definition root : Post.t :=
  Post.mk 7 "Home" "2024-12-03T12:00:00" (Some "Nick Diego") "/".

Definition rootNetwork (w : unit) (r : Request.t) : unit * Response :=
  (w, Resolved [root]).

Definition entry (id : Z) (title date : string) : Entry.t :=
  Entry.mk id title date "Nick Diego" ("https://x.com/" ++ title) "posts" (Num 0).

Definition posts : list Entry.t :=
  [ entry 1 "first" "2024-11-05";
    entry 2 "second" "2024-10-10";
    entry 3 "third" "2024-11-05" ].

(** A store that holds [posts] at every reference. *)
Definition heap : Heap := fun _ => posts.

End Sample.

(** ** Date argument and main (lines 20-26 and 187-241) *)

(** What a call leaves: a value, or the message of the error it throws. *)
Inductive result (A : Type) : Type :=
| Ok (value : A)
| Throw (message : string).

Arguments Ok {A} value.
Arguments Throw {A} message.

Definition CSV_FILE : string :=
  "developer.wordpress.org__news-posts-week-09_30_2024-10_06_2024.csv".

Definition JSON_FILE : string := "views_data.json".

(** What a run of the script leaves behind: the exit code of the process,
    the files written, in order, with their contents, and the state of the
    network. Output on the console is not part of the model. *)
Module Run.
Record t (World : Type) : Type := mk {
  exit_code : nat;
  written : list (string * string);
  world : World
}.
Arguments mk {World} exit_code written world.
Arguments exit_code {World} t.
Arguments written {World} t.
Arguments world {World} t.
End Run.

Section Main.

(** [new Date(s)]: [None] for an invalid date, otherwise the date, as its
    [toISOString()]. *)
Variable Date_parse : string -> option string.

(** [fs.readFile(path, 'utf-8')]: the contents, [None] when the promise is
    rejected. *)
Variable readFile : string -> option string.

(** [fs.writeFile(path, data)]: whether the promise is fulfilled. *)
Variable writeFile : string -> string -> bool.

(** [parse(csvContent, ...)] of csv-parse: the rows, [None] when it
    throws. *)
Variable parse : string -> option (list (list string)).

(** [JSON.stringify(viewsData, null, 2)] *)
Variable stringify : Obj.t -> string.

Variable World : Type.
Variable axios_get : World -> Request.t -> World * Response.
Variable iso_date : string -> option string.

(** Lines 20-26. *)
Definition parseDateInput (dateStr : string) : result string :=
  match Date_parse dateStr with
  | Some date => Ok date
  | None =>
      Throw ("Unable to parse date: " ++ dateStr
             ++ ". Please use format YYYY-MM-DD")
  end.

(** Lines 204-214: [afterDate], or the error that ends the process. *)
Definition after_date (dateInput : string) : result (option string) :=
  if truthy dateInput then
    match parseDateInput dateInput with
    | Ok date => Ok (Some date)
    | Throw message => Throw message
    end
  else Ok None.

(** [main], with [argv2] for [process.argv[2]] ([None] when the script is
    run without argument). An error caught at line 237 and the one caught at
    line 210 end the process with the code 1 at once; a run that reaches the
    end of [main] ends with the code 0. [posts] is a fresh array, at the
    reference 0 of a store of its own. *)
Definition main (argv2 : option string) (w : World) : Run.t World :=
  match readFile CSV_FILE with
  | None => Run.mk 1 [] w
  | Some csvContent =>
      match parse csvContent with
      | None => Run.mk 1 [] w
      | Some records =>
          let viewsData := Csv.viewsData (csvToJson records) in
          let json := (JSON_FILE, stringify viewsData) in
          if writeFile JSON_FILE (stringify viewsData) then
            let dateInput :=
              match argv2 with Some a => or_default a "" | None => "" end in
            match after_date dateInput with
            | Throw _ => Run.mk 1 [json] w
            | Ok afterDate =>
                let (w', posts) :=
                  fetchWordPressPosts axios_get iso_date
                    (Options.mk BASE_URL POST_TYPES afterDate None None
                                (Some viewsData)) w in
                match fst (write_report 0 dateInput
                                        (heap_set 0 posts (fun _ => []))) with
                | Some (name, markdown) =>
                    if writeFile name markdown
                    then Run.mk 0 [json; (name, markdown)] w'
                    else Run.mk 1 [json] w'
                | None => Run.mk 0 [json] w'
                end
            end
          else Run.mk 1 [] w
      end
  end.

End Main.

Arguments main Date_parse readFile writeFile parse stringify {World}
  axios_get iso_date argv2 w.

(** ** Further auxiliary definitions *)

(** No segment has the shape of a year. *)
Definition no_year (parts : list string) : bool :=
  forallb (fun p => negb (is_year p)) parts.

(** The items of a response up to the first one whose date does not
    convert. *)
Fixpoint convertible_prefix (iso_date : string -> option string)
  (data : list Post.t) : list Post.t :=
  match data with
  | [] => []
  | post :: data' =>
      match iso_date (Post.date post) with
      | Some _ => post :: convertible_prefix iso_date data'
      | None => []
      end
  end.

(** The number of occurrences of [c] in [s]. *)
Fixpoint count_char (c : ascii) (s : string) : nat :=
  match s with
  | EmptyString => 0
  | String a s' => (if Ascii.eqb a c then 1 else 0) + count_char c s'
  end.

(** [s] between two quotes. *)
Definition quoted (s : string) : string :=
  String dquote (s ++ String dquote EmptyString).

(** The numbers JavaScript holds exactly: NaN and the integers of
    magnitude below 2^53. *)
Definition safe_number (n : jsnum) : bool :=
  match n with
  | Num z => (Z.abs z <? 2 ^ 53)%Z
  | NaN => true
  end.

(** The keys in the order in which the rows bring them up: the cleaned URL
    of a row is added at the end unless it is there already or is
    [__proto__]. *)
Definition add_key (seen : list string) (k : string) : list string :=
  if existsb (String.eqb k) seen || String.eqb k "__proto__" then seen
  else seen ++ [k].

Definition first_seen (records : list (list string)) : list string :=
  fold_left (fun seen row => match row_key row with
                             | Some k => add_key seen k
                             | None => seen
                             end) records [].

(** No key is an array index: the keys are not canonical numerals. *)
Definition no_index_key (ks : list string) : bool :=
  forallb (fun k => match Obj.array_index k with
                    | Some _ => false
                    | None => true
                    end) ks.

(** Sample environment of a run: the CSV file holds two rows, every write
    succeeds, a date is valid when it has the form of ten characters. *)
Module SampleRun.

Definition Date_parse (s : string) : option string :=
  if (String.length s =? 10)%nat then Some (s ++ "T00:00:00.000Z")%string
  else None.

Definition readFile (path : string) : option string :=
  if String.eqb path CSV_FILE then Some "rows" else None.

Definition writeFile (path data : string) : bool := true.

Definition records : list (list string) :=
  [ ["Bridging the gap: Hybrid themes"; "1975";
     "https://developer.wordpress.org/news/2024/12/bridging-the-gap-hybrid-themes"];
    ["Snippet: Conditionally unregister patterns"; "19";
     "https://developer.wordpress.org/news/snippets/conditionally-unregister-patterns/"] ].

Definition parse (csvContent : string) : option (list (list string)) :=
  if String.eqb csvContent "rows" then Some records else None.

Definition stringify (o : Obj.t) : string := "{}".

(** A network that rejects every request and counts them. *)
Definition offline (w : nat) (r : Request.t) : nat * Response :=
  (S w, Rejected "getaddrinfo ENOTFOUND").

(** A network that counts the requests and answers as [Sample.network]. *)
Definition online (w : nat) (r : Request.t) : nat * Response :=
  (S w, snd (Sample.network tt r)).

End SampleRun.

(** The number a date of the form dddd-dd-dd stands for, year, month and
    day in one numeral: the digits of the string, read as a decimal. *)
Fixpoint digits_number (acc : Z) (s : string) : Z :=
  match s with
  | EmptyString => acc
  | String c s' =>
      if is_digit c
      then digits_number (10 * acc + ParseInt.digit_value c) s'
      else digits_number acc s'
  end.

Definition date_number (s : string) : Z := digits_number 0 s.

(** [a] is published on the day of [b] or before. *)
Definition chronological (a b : Entry.t) : Prop :=
  (date_number (Entry.publication_date a)
   <= date_number (Entry.publication_date b))%Z.

(** Two strings with digits at the same places and the same characters
    elsewhere. *)
Fixpoint aligned (a b : string) : bool :=
  match a, b with
  | EmptyString, EmptyString => true
  | String x a', String y b' =>
      ((is_digit x && is_digit y)
       || (negb (is_digit x) && negb (is_digit y) && Ascii.eqb x y))
      && aligned a' b'
  | _, _ => false
  end.

(** The number of digits of a string. *)
Fixpoint digit_count (s : string) : nat :=
  match s with
  | EmptyString => 0
  | String c s' => (if is_digit c then 1 else 0) + digit_count s'
  end.

(** * Properties *)

(** ** Characters *)

Lemma lower_char_slash (c : ascii) :
  Ascii.eqb (lower_char c) slash = Ascii.eqb c slash.
Proof. destruct c as [[] [] [] [] [] [] [] []]; reflexivity. Qed.

Lemma lower_char_digit (c : ascii) : is_digit (lower_char c) = is_digit c.
Proof. destruct c as [[] [] [] [] [] [] [] []]; reflexivity. Qed.

Lemma lower_char_idem (c : ascii) : lower_char (lower_char c) = lower_char c.
Proof. destruct c as [[] [] [] [] [] [] [] []]; reflexivity. Qed.

(** ** Lower case *)

Lemma toLowerCase_idem (s : string) : toLowerCase (toLowerCase s) = toLowerCase s.
Proof.
  induction s as [|c s IH]; simpl; [reflexivity|].
  now rewrite lower_char_idem, IH.
Qed.

Lemma toLowerCase_length (s : string) :
  String.length (toLowerCase s) = String.length s.
Proof. induction s as [|c s IH]; simpl; congruence. Qed.

Lemma toLowerCase_digits (s : string) :
  all_chars is_digit (toLowerCase s) = all_chars is_digit s.
Proof.
  induction s as [|c s IH]; simpl; [reflexivity|].
  now rewrite lower_char_digit, IH.
Qed.

Lemma is_year_lower (s : string) : is_year (toLowerCase s) = is_year s.
Proof. unfold is_year. now rewrite toLowerCase_length, toLowerCase_digits. Qed.

Lemma is_short_number_lower (s : string) :
  is_short_number (toLowerCase s) = is_short_number s.
Proof.
  unfold is_short_number. now rewrite toLowerCase_length, toLowerCase_digits.
Qed.

Lemma no_slash_lower (s : string) : no_slash (toLowerCase s) = no_slash s.
Proof.
  unfold no_slash. induction s as [|c s IH]; simpl; [reflexivity|].
  now rewrite lower_char_slash, IH.
Qed.

(** ** Splitting and joining *)

Lemma split_slash_cons (s : string) :
  exists h t, split_slash s = h :: t.
Proof.
  induction s as [|c s [h [t IH]]]; simpl.
  - now exists EmptyString, [].
  - destruct (Ascii.eqb c slash); rewrite ?IH; eauto.
Qed.

Lemma split_slash_single (s : string) :
  split_slash s = [EmptyString] -> s = EmptyString.
Proof.
  destruct s as [|c s]; [reflexivity|]. simpl.
  destruct (split_slash_cons s) as [h [t E]]. rewrite E.
  destruct (Ascii.eqb c slash); discriminate.
Qed.

Lemma split_slash_lower (s : string) :
  split_slash (toLowerCase s) = map toLowerCase (split_slash s).
Proof.
  induction s as [|c s IH]; simpl; [reflexivity|].
  rewrite lower_char_slash, IH.
  destruct (Ascii.eqb c slash); [reflexivity|].
  destruct (split_slash s); reflexivity.
Qed.

Lemma split_slash_no_slash (s : string) :
  forallb no_slash (split_slash s) = true.
Proof.
  induction s as [|c s IH]; simpl; [reflexivity|].
  destruct (Ascii.eqb c slash) eqn:E; simpl; [exact IH|].
  destruct (split_slash s) as [|h t]; simpl in *.
  - unfold no_slash; simpl. now rewrite E.
  - unfold no_slash in *; simpl. now rewrite E.
Qed.

Lemma split_slash_segment (s : string) :
  no_slash s = true -> split_slash s = [s].
Proof.
  unfold no_slash. induction s as [|c s IH]; simpl; [reflexivity|].
  intros H. apply andb_true_iff in H as [Hc Hs].
  apply negb_true_iff in Hc. rewrite Hc, (IH Hs). reflexivity.
Qed.

Lemma split_slash_app (a b : string) :
  no_slash a = true ->
  split_slash (a ++ String slash b) = a :: split_slash b.
Proof.
  unfold no_slash. induction a as [|c a IH]; simpl; intros H.
  - reflexivity.
  - apply andb_true_iff in H as [Hc Ha].
    apply negb_true_iff in Hc. rewrite Hc, (IH Ha). reflexivity.
Qed.

Lemma split_join (l : list string) :
  l <> [] -> forallb no_slash l = true -> split_slash (join "/" l) = l.
Proof.
  induction l as [|x l IH]; [congruence|]. intros _ H.
  simpl in H. apply andb_true_iff in H as [Hx Hl].
  destruct l as [|y l].
  - simpl. now apply split_slash_segment.
  - change (join "/" (x :: y :: l)) with (x ++ String slash (join "/" (y :: l)))%string.
    rewrite split_slash_app by assumption.
    rewrite IH; [reflexivity|discriminate|assumption].
Qed.

(** ** The loop of the normalizer *)

Lemma part_at_app (pre l : list string) (k : nat) :
  part_at (pre ++ l) (List.length pre + k) = part_at l k.
Proof. apply app_nth2_plus. Qed.

Lemma index_in_app (pre l : list string) (k : nat) :
  (List.length pre + k <? List.length (pre ++ l))%nat = (k <? List.length l)%nat.
Proof.
  rewrite length_app.
  destruct (Nat.ltb_spec k (List.length l));
    [apply Nat.ltb_lt|apply Nat.ltb_ge]; lia.
Qed.

Lemma part_at_app0 (pre l : list string) :
  part_at (pre ++ l) (List.length pre) = part_at l 0.
Proof. rewrite <- (Nat.add_0_r (List.length pre)). apply part_at_app. Qed.

Lemma index_in_app0 (pre l : list string) :
  (List.length pre <? List.length (pre ++ l))%nat = (0 <? List.length l)%nat.
Proof. rewrite <- (Nat.add_0_r (List.length pre)) at 1. apply index_in_app. Qed.

Lemma normalize_loop_from (fuel : nat) (pre l acc : list string) :
  List.length l <= fuel ->
  normalize_loop fuel (pre ++ l) (List.length pre) acc
  = acc ++ normalize_parts l.
Proof.
  revert pre l acc. induction fuel as [|fuel IH]; intros pre l acc Hl.
  - destruct l; [|simpl in Hl; lia]. simpl. now rewrite app_nil_r.
  - cbn [normalize_loop].
    rewrite index_in_app0, !part_at_app0, !index_in_app, !part_at_app.
    assert (Hstep : forall done rest' acc' i,
               i = List.length (pre ++ done) ->
               List.length rest' <= fuel ->
               l = done ++ rest' ->
               normalize_loop fuel (pre ++ l) i acc'
               = acc' ++ normalize_parts rest').
    { intros done rest' acc' i -> Hr ->. rewrite app_assoc. now apply IH. }
    destruct l as [|p rest]; [simpl; now rewrite app_nil_r|].
    simpl in Hl. unfold part_at. simpl nth. simpl List.length.
    cbn [Nat.ltb Nat.leb normalize_parts].
    destruct (is_year p).
    + destruct rest as [|m rest1].
      * simpl. rewrite (Hstep [p] []); simpl; try lia; try reflexivity.
        -- now rewrite app_nil_r, <- app_assoc.
        -- rewrite length_app. simpl. lia.
      * simpl in Hl. simpl andb at 1. cbv iota.
        destruct (is_short_number m).
        -- destruct rest1 as [|d rest2].
           ++ simpl. rewrite (Hstep [p; m] []); simpl; try lia; try reflexivity.
              ** now rewrite app_nil_r, <- app_assoc.
              ** rewrite length_app. simpl. lia.
           ++ simpl in Hl. simpl andb. cbv iota.
              destruct (is_short_number d).
              ** rewrite (Hstep [p; m; d] rest2); simpl; try lia; try reflexivity.
                 --- now rewrite <- !app_assoc.
                 --- rewrite length_app. simpl. lia.
              ** rewrite (Hstep [p; m] (d :: rest2)); simpl; try lia;
                   try reflexivity.
                 --- now rewrite <- !app_assoc.
                 --- rewrite length_app. simpl. lia.
        -- rewrite (Hstep [p] (m :: rest1)); simpl; try lia; try reflexivity.
           ++ now rewrite <- !app_assoc.
           ++ rewrite length_app. simpl. lia.
    + rewrite (Hstep [p] rest); simpl; try lia; try reflexivity.
      * now rewrite <- app_assoc.
      * rewrite length_app. simpl. lia.
Qed.

(** The loop run for [parts.length] iterations is the recursion on the
    segments; more fuel gives the same. *)
Lemma normalize_loop_parts (fuel : nat) (parts : list string) :
  List.length parts <= fuel ->
  normalize_loop fuel parts 0 [] = normalize_parts parts.
Proof. intros H. now apply (normalize_loop_from fuel [] parts []). Qed.

Lemma normalizeUrl_parts (url : string) :
  normalizeUrl url = join "/" (normalize_parts (url_parts url)).
Proof. unfold normalizeUrl. now rewrite normalize_loop_parts. Qed.

(** ** The trailing slash *)

Lemma strip_tail_not_single (l : list string) :
  l <> [EmptyString] -> strip_tail l = strip_parts l.
Proof.
  destruct l as [|x [|y l]]; try reflexivity.
  intros H. simpl. destruct (String.eqb x EmptyString) eqn:E; [|reflexivity].
  apply String.eqb_eq in E. congruence.
Qed.

Lemma split_strip (s : string) :
  split_slash (strip_trailing_slash s) = strip_parts (split_slash s).
Proof.
  unfold strip_trailing_slash.
  induction s as [|c s IH]; [reflexivity|].
  destruct s as [|c' s'].
  - simpl. destruct (Ascii.eqb c slash) eqn:E; simpl; [reflexivity|].
    now rewrite E.
  - remember (String c' s') as s eqn:Es.
    assert (Hne : split_slash s <> [EmptyString]).
    { intros H. apply split_slash_single in H. congruence. }
    assert (Hs : strip_last_char slash (String c s)
                 = String c (strip_last_char slash s)).
    { rewrite Es. reflexivity. }
    rewrite Hs. simpl. rewrite IH.
    destruct (Ascii.eqb c slash).
    + simpl. now rewrite strip_tail_not_single.
    + destruct (split_slash s) as [|h t]; reflexivity.
Qed.

Lemma url_parts_segments (url : string) :
  url_parts url = strip_parts (map toLowerCase (split_slash url)).
Proof. unfold url_parts. now rewrite split_strip, split_slash_lower. Qed.

Lemma strip_tail_app (a : list string) (x : string) (b : list string) :
  x <> EmptyString -> strip_tail (a ++ x :: b) = a ++ x :: strip_tail b.
Proof.
  intros Hx. induction a as [|y a IH].
  - simpl. destruct b as [|z b]; [|reflexivity].
    destruct (String.eqb x EmptyString) eqn:E; [|reflexivity].
    apply String.eqb_eq in E. contradiction.
  - change ((y :: a) ++ x :: b) with (y :: (a ++ x :: b)).
    destruct (a ++ x :: b) as [|z l] eqn:E.
    + destruct a; discriminate.
    + change (strip_tail (y :: z :: l)) with (y :: strip_tail (z :: l)).
      now rewrite IH.
Qed.

Lemma strip_parts_app (a : list string) (x : string) (b : list string) :
  x <> EmptyString -> strip_parts (a ++ x :: b) = a ++ x :: strip_tail b.
Proof.
  intros Hx. destruct a as [|y a]; [reflexivity|].
  simpl. now rewrite strip_tail_app.
Qed.

Lemma head_short_strip_tail (l : list string) :
  head_short l = false -> head_short (strip_tail l) = false.
Proof.
  destruct l as [|x [|y l]]; simpl; try reflexivity; try easy.
  destruct (String.eqb x EmptyString); simpl; easy.
Qed.

Lemma is_year_nonempty (s : string) : is_year s = true -> s <> EmptyString.
Proof. intros H E. subst s. discriminate. Qed.

Lemma is_short_number_nonempty (s : string) :
  is_short_number s = true -> s <> EmptyString.
Proof. intros H E. subst s. discriminate. Qed.

Lemma is_year_not_short (s : string) :
  is_year s = true -> is_short_number s = false.
Proof.
  unfold is_year, is_short_number. intros H.
  apply andb_true_iff in H as [H _]. apply Nat.eqb_eq in H. now rewrite H.
Qed.

(** ** The scan of the segments *)

Lemma normalize_parts_other (p : string) (rest : list string) :
  is_year p = false -> normalize_parts (p :: rest) = p :: normalize_parts rest.
Proof. intros H. simpl. now rewrite H. Qed.

Lemma normalize_parts_year (p : string) (rest : list string) :
  is_year p = true -> head_short rest = false ->
  normalize_parts (p :: rest) = p :: p :: normalize_parts rest.
Proof.
  intros H Hr. simpl. rewrite H.
  destruct rest as [|m rest1]; [reflexivity|]. simpl in Hr. now rewrite Hr.
Qed.

Lemma normalize_parts_month (p m : string) (rest1 : list string) :
  is_year p = true -> is_short_number m = true -> head_short rest1 = false ->
  normalize_parts (p :: m :: rest1) = p :: m :: normalize_parts rest1.
Proof.
  intros H Hm Hr. simpl. rewrite H, Hm.
  destruct rest1 as [|d rest2]; [reflexivity|]. simpl in Hr. now rewrite Hr.
Qed.

Lemma normalize_parts_day (p m d : string) (rest2 : list string) :
  is_year p = true -> is_short_number m = true -> is_short_number d = true ->
  normalize_parts (p :: m :: d :: rest2) = p :: m :: normalize_parts rest2.
Proof. intros H Hm Hd. simpl. now rewrite H, Hm, Hd. Qed.

(** Induction along the iterations of the loop. *)
Lemma parts_ind (P : list string -> Prop) :
  P [] ->
  (forall p rest, is_year p = false -> P rest -> P (p :: rest)) ->
  (forall p rest, is_year p = true -> head_short rest = false ->
                  P rest -> P (p :: rest)) ->
  (forall p m rest1, is_year p = true -> is_short_number m = true ->
                     head_short rest1 = false -> P rest1 -> P (p :: m :: rest1)) ->
  (forall p m d rest2, is_year p = true -> is_short_number m = true ->
                       is_short_number d = true -> P rest2 ->
                       P (p :: m :: d :: rest2)) ->
  forall l, P l.
Proof.
  intros Hnil Hother Hyear Hmonth Hday.
  assert (H : forall n l, List.length l <= n -> P l).
  { induction n as [|n IH]; intros l Hl.
    - destruct l; [exact Hnil|simpl in Hl; lia].
    - destruct l as [|p rest]; [exact Hnil|]. simpl in Hl.
      destruct (is_year p) eqn:Ey.
      + destruct rest as [|m rest1].
        * apply Hyear; auto.
        * destruct (is_short_number m) eqn:Em.
          -- destruct rest1 as [|d rest2].
             ++ apply Hmonth; auto.
             ++ simpl in Hl. destruct (is_short_number d) eqn:Ed.
                ** apply Hday; auto. apply IH. lia.
                ** apply Hmonth; auto. apply IH. simpl. lia.
          -- apply Hyear; auto. apply IH. lia.
      + apply Hother; auto. apply IH. lia. }
  intros l. apply (H (List.length l)). lia.
Qed.

Lemma normalize_parts_head (l : list string) :
  hd_error (normalize_parts l) = hd_error l.
Proof.
  destruct l as [|p rest]; [reflexivity|]. simpl.
  destruct (is_year p); [|reflexivity].
  destruct rest as [|m rest1]; [reflexivity|].
  destruct (is_short_number m); [|reflexivity].
  destruct rest1 as [|d rest2]; [reflexivity|].
  destruct (is_short_number d); reflexivity.
Qed.

Lemma head_short_normalize (l : list string) :
  head_short (normalize_parts l) = head_short l.
Proof.
  pose proof (normalize_parts_head l) as H.
  destruct (normalize_parts l), l; simpl in *; congruence.
Qed.

Lemma normalize_parts_incl (l : list string) (x : string) :
  In x (normalize_parts l) -> In x l.
Proof.
  induction l as [| p rest IH | p rest Hy Hr IH | p m rest1 Hy Hm Hr IH
                  | p m d rest2 Hy Hm Hd IH] using parts_ind.
  - easy.
  - rewrite normalize_parts_other by assumption. simpl. tauto.
  - rewrite normalize_parts_year by assumption. simpl. tauto.
  - rewrite normalize_parts_month by assumption. simpl. tauto.
  - rewrite normalize_parts_day by assumption. simpl. tauto.
Qed.

Lemma normalize_parts_nonempty (l : list string) :
  l <> [] -> normalize_parts l <> [].
Proof.
  intros H E. pose proof (normalize_parts_head l) as Hh. rewrite E in Hh.
  destruct l; [congruence|discriminate].
Qed.

(** A day after a year and a month is dropped wherever the group stands. *)
Lemma normalize_parts_fold_day (pre : list string) (y m d : string)
  (rest : list string) :
  is_year y = true -> is_short_number m = true -> is_short_number d = true ->
  head_short rest = false ->
  normalize_parts (pre ++ y :: m :: d :: rest)
  = normalize_parts (pre ++ y :: m :: rest).
Proof.
  intros Hy Hm Hd Hrest.
  assert (Hhead : forall l tl, head_short l = false ->
                               head_short (l ++ y :: tl) = false).
  { intros [|x l] tl H; [|exact H]. simpl. now apply is_year_not_short. }
  induction pre as [| p rest0 Hp IH | p rest0 Hp Hr IH | p m0 rest1 Hp Hm0 Hr IH
                    | p m0 d0 rest2 Hp Hm0 Hd0 IH] using parts_ind.
  - simpl app. rewrite normalize_parts_day, normalize_parts_month by assumption.
    reflexivity.
  - simpl app. rewrite !normalize_parts_other by assumption. now rewrite IH.
  - simpl app. rewrite !normalize_parts_year by auto. now rewrite IH.
  - simpl app. rewrite !normalize_parts_month by auto. now rewrite IH.
  - simpl app. rewrite !normalize_parts_day by auto. now rewrite IH.
Qed.

Lemma strip_tail_cons_inv (x : string) (l : list string) :
  strip_tail (x :: l) = x :: l -> strip_tail l = l.
Proof.
  destruct l as [|y l]; [reflexivity|].
  change (strip_tail (x :: y :: l)) with (x :: strip_tail (y :: l)). congruence.
Qed.

Lemma strip_tail_single_inv (x : string) :
  strip_tail [x] = [x] -> x <> EmptyString.
Proof. intros H E. subst x. discriminate. Qed.

Lemma strip_tail_cons (x : string) (l : list string) :
  strip_tail l = l -> x <> EmptyString \/ l <> [] ->
  strip_tail (x :: l) = x :: l.
Proof.
  intros Hl H. destruct l as [|y l].
  - destruct H as [H|H]; [|congruence]. simpl.
    destruct (String.eqb x EmptyString) eqn:E; [|reflexivity].
    apply String.eqb_eq in E. contradiction.
  - change (strip_tail (x :: y :: l)) with (x :: strip_tail (y :: l)). congruence.
Qed.

(** Segments that do not end in an empty segment still do not after the
    scan. *)
Lemma strip_tail_normalize (l : list string) :
  strip_tail l = l -> strip_tail (normalize_parts l) = normalize_parts l.
Proof.
  induction l as [| p rest Hp IH | p rest Hp Hr IH | p m rest1 Hp Hm Hr IH
                  | p m d rest2 Hp Hm Hd IH] using parts_ind; intros H.
  - reflexivity.
  - rewrite normalize_parts_other by assumption.
    apply strip_tail_cons; [apply IH; eapply strip_tail_cons_inv; eauto|].
    destruct rest as [|r rs].
    + left. now apply strip_tail_single_inv.
    + right. now apply normalize_parts_nonempty.
  - rewrite normalize_parts_year by assumption.
    pose proof (is_year_nonempty _ Hp).
    apply strip_tail_cons; [|now left].
    apply strip_tail_cons; [|now left].
    apply IH. eapply strip_tail_cons_inv; eauto.
  - rewrite normalize_parts_month by assumption.
    pose proof (is_year_nonempty _ Hp).
    pose proof (is_short_number_nonempty _ Hm).
    apply strip_tail_cons; [|now left].
    apply strip_tail_cons; [|now left].
    apply IH. do 2 apply strip_tail_cons_inv in H. exact H.
  - rewrite normalize_parts_day by assumption.
    pose proof (is_year_nonempty _ Hp).
    pose proof (is_short_number_nonempty _ Hm).
    apply strip_tail_cons; [|now left].
    apply strip_tail_cons; [|now left].
    apply IH. do 3 apply strip_tail_cons_inv in H. exact H.
Qed.

Lemma strip_parts_normalize (l : list string) :
  strip_parts l = l -> strip_parts (normalize_parts l) = normalize_parts l.
Proof.
  destruct l as [|x t]; [reflexivity|]. intros H.
  assert (Ht : strip_tail t = t) by (simpl in H; congruence).
  destruct (is_year x) eqn:Ex.
  - pose proof (is_year_nonempty _ Ex).
    destruct (head_short t) eqn:Eh.
    + destruct t as [|m rest1]; [discriminate|]. simpl in Eh.
      pose proof (is_short_number_nonempty _ Eh).
      destruct (head_short rest1) eqn:Eh1.
      * destruct rest1 as [|d rest2]; [discriminate|]. simpl in Eh1.
        rewrite normalize_parts_day by assumption. simpl. f_equal.
        apply strip_tail_cons; [|now left].
        apply strip_tail_normalize. do 2 apply strip_tail_cons_inv in Ht. exact Ht.
      * rewrite normalize_parts_month by assumption. simpl. f_equal.
        apply strip_tail_cons; [|now left].
        apply strip_tail_normalize. now apply strip_tail_cons_inv in Ht.
    + rewrite normalize_parts_year by assumption. simpl. f_equal.
      apply strip_tail_cons; [|now left]. now apply strip_tail_normalize.
  - rewrite normalize_parts_other by assumption. simpl. f_equal.
    now apply strip_tail_normalize.
Qed.

(** On settled date groups a second scan changes nothing. *)
Lemma normalize_parts_settled (l : list string) :
  dates_settled l = true ->
  normalize_parts (normalize_parts l) = normalize_parts l.
Proof.
  induction l as [| p rest Hp IH | p rest Hp Hr IH | p m rest1 Hp Hm Hr IH
                  | p m d rest2 Hp Hm Hd IH] using parts_ind; intros H.
  - reflexivity.
  - simpl in H. rewrite Hp in H.
    rewrite normalize_parts_other by assumption.
    rewrite normalize_parts_other by assumption. now rewrite IH.
  - exfalso. simpl in H. rewrite Hp in H.
    destruct rest as [|m rest1]; [discriminate|]. simpl in Hr.
    rewrite Hr in H. discriminate.
  - assert (Hs : dates_settled rest1 = true).
    { simpl in H. rewrite Hp, Hm in H.
      destruct rest1 as [|d rest2]; [reflexivity|]. simpl in Hr.
      now rewrite Hr in H. }
    rewrite normalize_parts_month by assumption.
    rewrite normalize_parts_month; auto.
    + now rewrite IH.
    + now rewrite head_short_normalize.
  - simpl in H. rewrite Hp, Hm, Hd in H.
    apply andb_true_iff in H as [Hh Hs]. apply negb_true_iff in Hh.
    rewrite normalize_parts_day by assumption.
    rewrite normalize_parts_month; auto.
    + now rewrite IH.
    + now rewrite head_short_normalize.
Qed.

Lemma strip_parts_incl (l : list string) (x : string) :
  In x (strip_parts l) -> In x l.
Proof.
  destruct l as [|y l]; [easy|]. simpl. intros [H|H]; [now left|right].
  revert H. induction l as [|z l IH]; [easy|].
  destruct l as [|w l].
  - simpl. destruct (String.eqb z EmptyString); simpl; tauto.
  - change (strip_tail (z :: w :: l)) with (z :: strip_tail (w :: l)).
    intros [H|H]; [now left|right; auto].
Qed.

Lemma url_parts_lower (url x : string) :
  In x (url_parts url) -> toLowerCase x = x.
Proof.
  rewrite url_parts_segments. intros H. apply strip_parts_incl in H.
  apply in_map_iff in H as [x' [E _]]. subst x. apply toLowerCase_idem.
Qed.

Lemma url_parts_no_slash (url : string) :
  forallb no_slash (url_parts url) = true.
Proof. apply split_slash_no_slash. Qed.

Lemma url_parts_nonempty (url : string) : url_parts url <> [].
Proof.
  unfold url_parts.
  destruct (split_slash_cons (strip_trailing_slash (toLowerCase url)))
    as [h [t E]].
  rewrite E. discriminate.
Qed.

(** The segments of a URL that is itself a join of lower-case segments. *)
Lemma url_parts_join (l : list string) :
  l <> [] -> forallb no_slash l = true ->
  url_parts (join "/" l) = strip_parts (map toLowerCase l).
Proof.
  intros Hne Hns. rewrite url_parts_segments. now rewrite split_join.
Qed.

(** ** Normalizer: idempotence *)

(** Three inputs on which a second normalization changes the result: a day
    followed by one more short number, a doubled trailing slash, and a year
    without a month, which line 55 pushes a second time. *)
Example normalizeUrl_second_day :
  normalizeUrl "https://x.com/2024/12/03/04" = "https://x.com/2024/12/04"
  /\ normalizeUrl "https://x.com/2024/12/04" = "https://x.com/2024/12".
Proof. split; reflexivity. Qed.

Example normalizeUrl_double_slash :
  normalizeUrl "https://x.com/a//" = "https://x.com/a/"
  /\ normalizeUrl "https://x.com/a/" = "https://x.com/a".
Proof. split; reflexivity. Qed.

Example normalizeUrl_lone_year :
  normalizeUrl "https://x.com/2024/post" = "https://x.com/2024/2024/post"
  /\ normalizeUrl "https://x.com/2024/2024/post"
     = "https://x.com/2024/2024/2024/2024/post".
Proof. split; reflexivity. Qed.

(** C1, as stated, fails: normalizing ["https://x.com/2024/12/03/04"] drops
    the day [03], and normalizing the result drops [04] as a day in turn. *)
Lemma normalizeUrl_not_idempotent :
  normalizeUrl (normalizeUrl "https://x.com/2024/12/03/04")
  <> normalizeUrl "https://x.com/2024/12/03/04".
Proof. vm_compute. discriminate. Qed.

(** C1, amended: [normalizeUrl] is idempotent on every URL that does not end
    in two slashes (stripping a second trailing slash changes nothing) and
    whose date groups are settled: every four-digit segment met by the scan
    is followed by a one- or two-digit segment, and the segment after a
    year, a month and a discarded day is not a one- or two-digit number. *)
Theorem normalizeUrl_idempotent (u : string) :
  strip_trailing_slash (strip_trailing_slash (toLowerCase u))
  = strip_trailing_slash (toLowerCase u) ->
  dates_settled (url_parts u) = true ->
  normalizeUrl (normalizeUrl u) = normalizeUrl u.
Proof.
  intros Hslash Hdates. rewrite !normalizeUrl_parts.
  set (P := url_parts u) in *.
  assert (HP : strip_parts P = P).
  { unfold P, url_parts. rewrite <- split_strip. now rewrite Hslash. }
  assert (Hns : forallb no_slash (normalize_parts P) = true).
  { apply forallb_forall. intros x Hx. apply normalize_parts_incl in Hx.
    pose proof (url_parts_no_slash u) as H.
    rewrite forallb_forall in H. now apply H. }
  assert (Hlow : map toLowerCase (normalize_parts P) = normalize_parts P).
  { rewrite <- (map_id (normalize_parts P)) at 2.
    apply map_ext_in. intros x Hx. apply normalize_parts_incl in Hx.
    now apply (url_parts_lower u). }
  f_equal.
  rewrite url_parts_join; auto.
  - rewrite Hlow, strip_parts_normalize by assumption.
    now apply normalize_parts_settled.
  - apply normalize_parts_nonempty, url_parts_nonempty.
Qed.

Lemma normalizeUrl_idempotent_witness :
  normalizeUrl (normalizeUrl "https://X.com/2024/12/03/Post/")
  = normalizeUrl "https://X.com/2024/12/03/Post/".
Proof. apply normalizeUrl_idempotent; reflexivity. Defined.

(** ** Normalizer: folding of the day *)

Lemma lower_char_of_digit (c : ascii) : is_digit c = true -> lower_char c = c.
Proof. destruct c as [[] [] [] [] [] [] [] []]; try discriminate; reflexivity. Qed.

Lemma toLowerCase_of_digits (s : string) :
  all_chars is_digit s = true -> toLowerCase s = s.
Proof.
  induction s as [|c s IH]; [reflexivity|]. simpl. intros H.
  apply andb_true_iff in H as [Hc Hs]. now rewrite lower_char_of_digit, IH.
Qed.

(** The scan starts afresh at a year, whatever comes before it. *)
Lemma normalize_parts_app_year (pre : list string) (y : string)
  (l : list string) :
  is_year y = true ->
  normalize_parts (pre ++ y :: l)
  = normalize_parts pre ++ normalize_parts (y :: l).
Proof.
  intros Hy.
  assert (Hhead : forall r, head_short r = false ->
                            head_short (r ++ y :: l) = false).
  { intros [|x r] H; [|exact H]. simpl. now apply is_year_not_short. }
  induction pre as [| p rest0 Hp IH | p rest0 Hp Hr IH | p m0 rest1 Hp Hm0 Hr IH
                    | p m0 d0 rest2 Hp Hm0 Hd0 IH] using parts_ind.
  - reflexivity.
  - rewrite <- app_comm_cons.
    rewrite (normalize_parts_other p rest0), normalize_parts_other by assumption.
    now rewrite IH.
  - rewrite <- app_comm_cons.
    rewrite (normalize_parts_year p rest0), normalize_parts_year by auto.
    now rewrite IH.
  - rewrite <- !app_comm_cons.
    rewrite (normalize_parts_month p m0 rest1), normalize_parts_month by auto.
    now rewrite IH.
  - rewrite <- !app_comm_cons.
    rewrite (normalize_parts_day p m0 d0 rest2), normalize_parts_day
      by assumption.
    now rewrite IH.
Qed.

(** C4, as stated, fails for a slug that is a one- or two-digit number: in
    ["https://x.com/2024/12/03/7"] the day [03] is dropped and [7] stays,
    in ["https://x.com/2024/12/7"] the slug [7] is dropped as a day. *)
Lemma normalizeUrl_numeric_slug :
  normalizeUrl "https://x.com/2024/12/03/7" = "https://x.com/2024/12/7"
  /\ normalizeUrl "https://x.com/2024/12/7" = "https://x.com/2024/12"
  /\ normalizeUrl "https://x.com/2024/12/03/7"
     <> normalizeUrl "https://x.com/2024/12/7".
Proof.
  split; [reflexivity|]. split; [reflexivity|]. vm_compute. discriminate.
Qed.

(** C4, amended: a URL of the shape year/month/day/slug and the URL of the
    shape year/month/slug with the same segments around the date normalize
    to the same string, provided the slug is not itself a one- or two-digit
    number; so do ["https://x.com/2024/12/03/post"] and
    ["https://x.com/2024/12/post"]. The common result keeps the year and
    the month and has no day: it is what the scan makes of the segments
    before the date, then the year and the month, then what the scan makes
    of the slug and the segments after it. *)
Theorem normalizeUrl_folds_day (pre : list string) (y m d slug : string)
  (rest : list string) :
  forallb no_slash (pre ++ y :: m :: d :: slug :: rest) = true ->
  is_year y = true ->
  is_short_number m = true ->
  is_short_number d = true ->
  is_short_number slug = false ->
  normalizeUrl (join "/" (pre ++ y :: m :: d :: slug :: rest))
  = normalizeUrl (join "/" (pre ++ y :: m :: slug :: rest))
  /\ normalizeUrl "https://x.com/2024/12/03/post"
     = normalizeUrl "https://x.com/2024/12/post"
  /\ normalizeUrl (join "/" (pre ++ y :: m :: d :: slug :: rest))
     = join "/" (normalize_parts (map toLowerCase pre)
                 ++ y :: m
                 :: normalize_parts (strip_tail (map toLowerCase (slug :: rest)))).
Proof.
  intros Hns Hy Hm Hd Hslug.
  assert (Hns' : forallb no_slash (pre ++ y :: m :: slug :: rest) = true).
  { rewrite forallb_app in *. simpl in *.
    repeat (apply andb_true_iff in Hns as [? Hns] || apply andb_true_iff in Hns as [Hns ?]).
    repeat (apply andb_true_iff; split); auto.
    all: repeat match goal with
         | H : _ && _ = true |- _ => apply andb_true_iff in H as [? ?]
         end; auto. }
  assert (Ly : toLowerCase y = y).
  { apply toLowerCase_of_digits. unfold is_year in Hy.
    now apply andb_true_iff in Hy as [_ Hy]. }
  assert (Lm : toLowerCase m = m).
  { apply toLowerCase_of_digits. unfold is_short_number in Hm.
    now apply andb_true_iff in Hm as [_ Hm]. }
  assert (Es : is_short_number (toLowerCase slug) = false)
    by now rewrite is_short_number_lower.
  assert (Ed : is_short_number (toLowerCase d) = true)
    by now rewrite is_short_number_lower.
  assert (Hwith : url_parts (join "/" (pre ++ y :: m :: d :: slug :: rest))
                  = map toLowerCase pre ++ y :: m :: toLowerCase d
                    :: strip_tail (map toLowerCase (slug :: rest))).
  { rewrite url_parts_join; auto; [|destruct pre; discriminate].
    rewrite map_app. simpl map. rewrite Ly, Lm.
    change (map toLowerCase pre ++ y :: m :: toLowerCase d
              :: toLowerCase slug :: map toLowerCase rest)
      with (map toLowerCase pre ++ [y] ++ [m] ++ toLowerCase d
              :: toLowerCase slug :: map toLowerCase rest).
    rewrite !app_assoc.
    rewrite strip_parts_app by now apply is_short_number_nonempty.
    now rewrite <- !app_assoc. }
  assert (Hwithout : url_parts (join "/" (pre ++ y :: m :: slug :: rest))
                     = map toLowerCase pre ++ y :: m
                       :: strip_tail (map toLowerCase (slug :: rest))).
  { rewrite url_parts_join; auto; [|destruct pre; discriminate].
    rewrite map_app. simpl map. rewrite Ly, Lm.
    change (map toLowerCase pre ++ y :: m
              :: toLowerCase slug :: map toLowerCase rest)
      with (map toLowerCase pre ++ [y] ++ m
              :: toLowerCase slug :: map toLowerCase rest).
    rewrite !app_assoc.
    rewrite strip_parts_app by now apply is_short_number_nonempty.
    now rewrite <- !app_assoc. }
  assert (Htail : head_short (strip_tail (map toLowerCase (slug :: rest)))
                  = false).
  { now apply (head_short_strip_tail (toLowerCase slug :: map toLowerCase rest)). }
  split; [|split; [reflexivity|]].
  - rewrite !normalizeUrl_parts, Hwith, Hwithout. f_equal.
    now apply normalize_parts_fold_day.
  - rewrite normalizeUrl_parts, Hwith. f_equal.
    rewrite normalize_parts_app_year by assumption.
    now rewrite normalize_parts_day.
Qed.

Lemma normalizeUrl_folds_day_witness :
  normalizeUrl (join "/" (["https:"; ""; "developer.wordpress.org"; "news"]
                          ++ ["2024"; "12"; "03"; "bridging-the-gap"; ""]))
  = normalizeUrl (join "/" (["https:"; ""; "developer.wordpress.org"; "news"]
                            ++ ["2024"; "12"; "bridging-the-gap"; ""]))
  /\ normalizeUrl "https://x.com/2024/12/03/post"
     = normalizeUrl "https://x.com/2024/12/post"
  /\ normalizeUrl (join "/" (["https:"; ""; "developer.wordpress.org"; "news"]
                             ++ ["2024"; "12"; "03"; "bridging-the-gap"; ""]))
     = "https://developer.wordpress.org/news/2024/12/bridging-the-gap".
Proof.
  apply (normalizeUrl_folds_day
           ["https:"; ""; "developer.wordpress.org"; "news"]
           "2024" "12" "03" "bridging-the-gap" [""]); reflexivity.
Defined.

(** ** Report file name *)

Lemma keep_chars_app (f : ascii -> bool) (a b : string) :
  keep_chars f (a ++ b) = (keep_chars f a ++ keep_chars f b)%string.
Proof.
  induction a as [|c a IH]; simpl; [reflexivity|].
  destruct (f c); simpl; now rewrite IH.
Qed.

Lemma keep_chars_all (f : ascii -> bool) (s : string) :
  all_chars f (keep_chars f s) = true.
Proof.
  induction s as [|c s IH]; simpl; [reflexivity|].
  destruct (f c) eqn:E; simpl; [now rewrite E|assumption].
Qed.

Lemma keep_chars_id (f : ascii -> bool) (s : string) :
  all_chars f s = true -> keep_chars f s = s.
Proof.
  induction s as [|c s IH]; simpl; [reflexivity|]. intros H.
  apply andb_true_iff in H as [Hc Hs]. now rewrite Hc, IH.
Qed.

(** C7: the report is named [devblognews-], the date argument without the
    characters other than letters, digits, hyphen and underscore ([all]
    when there is no argument), and [.md]; the argument ["2024/10/01!!"]
    gives ["devblognews-20241001.md"], the name of the file [main] writes
    when there are posts. *)
Theorem report_filename_sanitized :
  (forall dateInput,
     report_filename dateInput
     = ("devblognews-" ++ keep_chars is_safe (or_default dateInput "all")
        ++ ".md")%string
     /\ all_chars is_safe (safeFilename dateInput) = true)
  /\ report_filename "2024/10/01!!" = "devblognews-20241001.md"
  /\ report_filename "" = "devblognews-all.md"
  /\ option_map fst (fst (write_report 0 "2024/10/01!!" Sample.heap))
     = Some "devblognews-20241001.md".
Proof.
  split; [|repeat split; reflexivity].
  intros dateInput. unfold report_filename, safeFilename. split.
  - rewrite keep_chars_app. reflexivity.
  - apply keep_chars_all.
Qed.

(** ** The views mapping *)

Lemma own_get_set_same (k : string) (v : View.t) (l : list (string * View.t)) :
  Obj.own_get k (Obj.own_set k v l) = Some v.
Proof.
  induction l as [|[k' v'] l IH]; simpl.
  - now rewrite String.eqb_refl.
  - destruct (String.eqb k' k) eqn:E; simpl.
    + now rewrite String.eqb_refl.
    + now rewrite E.
Qed.

Lemma own_get_set_other (k k' : string) (v : View.t)
  (l : list (string * View.t)) :
  k' <> k -> Obj.own_get k (Obj.own_set k' v l) = Obj.own_get k l.
Proof.
  intros Hne. apply String.eqb_neq in Hne.
  induction l as [|[k0 v0] l IH]; simpl.
  - now rewrite Hne.
  - destruct (String.eqb k0 k') eqn:E; simpl.
    + apply String.eqb_eq in E. subst k0. now rewrite Hne.
    + now rewrite IH.
Qed.

Lemma get_set_same (k : string) (v : View.t) (o : Obj.t) :
  Obj.get (Obj.set k v o) k = Some v.
Proof.
  unfold Obj.get, Obj.set.
  destruct (Obj.own_get k (Obj.own o)) eqn:E; cbn [Obj.own Obj.proto].
  - now rewrite own_get_set_same.
  - destruct (String.eqb k "__proto__") eqn:Ep; cbn [Obj.own Obj.proto].
    + now rewrite E.
    + now rewrite own_get_set_same.
Qed.

Lemma get_set_other (k k' : string) (v : View.t) (o : Obj.t) :
  k' <> k -> Obj.get (Obj.set k' v o) k = Obj.get o k.
Proof.
  intros Hne. unfold Obj.get, Obj.set.
  destruct (Obj.own_get k' (Obj.own o)) eqn:E; cbn [Obj.own Obj.proto].
  - now rewrite own_get_set_other.
  - destruct (String.eqb k' "__proto__") eqn:Ep; cbn [Obj.own Obj.proto].
    + apply String.eqb_eq in Ep. subst k'.
      apply String.eqb_neq in Hne. rewrite String.eqb_sym in Hne.
      now rewrite Hne.
    + now rewrite own_get_set_other.
Qed.

(** ** CSV importer *)

Lemma csvToJson_snoc (records : list (list string)) (row : list string) :
  csvToJson (records ++ [row]) = csv_row (csvToJson records) row.
Proof. unfold csvToJson. now rewrite fold_left_app. Qed.

Lemma csv_row_short (acc : Csv.t) (row : list string) :
  has_three row = false ->
  csv_row acc row
  = Csv.mk (Csv.viewsData acc) (Csv.processed acc) (S (Csv.skipped acc)).
Proof. destruct row as [|a [|b [|c row]]]; try reflexivity; discriminate. Qed.

(** C2, on the code: [parseInt] returns NaN for ["not-a-number"] and nothing
    is thrown, so the second row of the example is stored with the views NaN
    and counted as processed: two entries, processed 2, skipped 0, where the
    claim has one entry, processed 1 and skipped 1. *)
Theorem csvToJson_keeps_malformed_views :
  let r := csvToJson [ ["Title A"; "42"; "https://x.com/a/"];
                       ["Title B"; "not-a-number"; "https://x.com/b"] ] in
  parseInt "not-a-number" = NaN
  /\ Obj.keys (Csv.viewsData r) = ["https://x.com/a"; "https://x.com/b"]
  /\ Obj.get (Csv.viewsData r) "https://x.com/a" = Some (View.mk "Title A" (Num 42))
  /\ Obj.get (Csv.viewsData r) "https://x.com/b" = Some (View.mk "Title B" NaN)
  /\ Csv.processed r = 2
  /\ Csv.skipped r = 0.
Proof. repeat split; reflexivity. Qed.

(** C8: reading the mapping [csvToJson] returns at a key gives the record
    built from the last row that cleans to this key, and nothing when there
    is no such row; of two rows for one URL the later one is found. *)
Theorem csvToJson_last_row_wins :
  (forall records k,
     Obj.get (Csv.viewsData (csvToJson records)) k
     = match last_row k records with
       | Some row => row_view row
       | None => None
       end)
  /\ (let r := csvToJson [ ["Old title"; "1"; "https://x.com/a/"];
                           ["Other"; "7"; "https://x.com/b"];
                           ["New title"; "2"; "https://x.com/a"] ] in
      Obj.get (Csv.viewsData r) "https://x.com/a"
      = Some (View.mk "New title" (Num 2))
      /\ Obj.keys (Csv.viewsData r) = ["https://x.com/a"; "https://x.com/b"]).
Proof.
  split; [|split; reflexivity].
  intros records k. induction records as [|row records IH] using rev_ind.
  - simpl. unfold Obj.get. simpl. now destruct (String.eqb k "__proto__").
  - rewrite csvToJson_snoc. unfold last_row in *. rewrite rev_unit. simpl.
    unfold row_has_key at 1.
    destruct row as [|title [|views [|url extra]]]; simpl; try exact IH.
    destruct (String.eqb (cleanUrl url) k) eqn:E.
    + apply String.eqb_eq in E. subst k. apply get_set_same.
    + apply String.eqb_neq in E. rewrite get_set_other by assumption. exact IH.
Qed.

(** C9: a row is skipped exactly when it has fewer than three fields. The
    counters are the numbers of rows with and without three fields, and the
    mapping is the one the rows with three fields alone give: a shorter row
    stores nothing and does not stop the loop. A row with three fields or
    more is assigned under its cleaned URL and counted as processed,
    whatever its views field holds, and its further fields are not read. *)
Theorem csvToJson_skips_short_rows :
  (forall records,
     Csv.processed (csvToJson records) = List.length (filter has_three records)
     /\ Csv.skipped (csvToJson records)
        = List.length (filter (fun row => negb (has_three row)) records)
     /\ Csv.viewsData (csvToJson records)
        = Csv.viewsData (csvToJson (filter has_three records)))
  /\ (forall records title views url extra,
        let r := csvToJson (records ++ [title :: views :: url :: extra]) in
        Csv.viewsData r
        = Obj.set (cleanUrl url) (row_record title views)
                  (Csv.viewsData (csvToJson records))
        /\ Obj.get (Csv.viewsData r) (cleanUrl url)
           = Some (row_record title views)
        /\ Csv.processed r = S (Csv.processed (csvToJson records))
        /\ Csv.skipped r = Csv.skipped (csvToJson records))
  /\ (forall records, csvToJson (map (firstn 3) records) = csvToJson records).
Proof.
  split; [|split].
  - intros records. induction records as [|row records IH] using rev_ind.
    + repeat split.
    + rewrite csvToJson_snoc, !filter_app, !length_app. simpl.
      destruct IH as [IHp [IHs IHv]].
      destruct (has_three row) eqn:E.
      * rewrite csvToJson_snoc.
        destruct row as [|a [|b [|c row]]]; try discriminate. simpl.
        rewrite IHp, IHs, IHv. repeat split; lia.
      * rewrite csv_row_short by assumption. simpl.
        rewrite app_nil_r, IHp, IHs, IHv. repeat split; lia.
  - intros records title views url extra r. unfold r.
    rewrite csvToJson_snoc. simpl. repeat split. apply get_set_same.
  - intros records. induction records as [|row records IH] using rev_ind.
    + reflexivity.
    + rewrite map_app.
      change (map (firstn 3) [row]) with [firstn 3 row].
      rewrite !csvToJson_snoc, IH.
      destruct row as [|a [|b [|c row]]]; reflexivity.
Qed.

Example csvToJson_short_row :
  let r := csvToJson [ ["Only title"; "12"];
                       ["Title A"; "42"; "https://x.com/a/"; "extra"] ] in
  Csv.processed r = 1 /\ Csv.skipped r = 1
  /\ Obj.keys (Csv.viewsData r) = ["https://x.com/a"].
Proof. repeat split; reflexivity. Qed.

(** ** Sorting *)

Section SortFacts.

Variable A : Type.
Variable cmp : A -> A -> comparison.

Lemma sort_insert_perm (x : A) (l : list A) :
  Permutation (sort_insert cmp x l) (x :: l).
Proof.
  induction l as [|y l IH]; simpl; [reflexivity|].
  destruct (cmp x y); try reflexivity.
  rewrite IH. apply perm_swap.
Qed.

Lemma sorted_contents_perm (l : list A) :
  Permutation (sorted_contents cmp l) l.
Proof.
  induction l as [|x l IH]; simpl; [reflexivity|].
  rewrite sort_insert_perm. now constructor.
Qed.

(** Elements that the comparator does not order keep their places: an
    element is moved only past elements that compare smaller. *)
Lemma sort_insert_filter (p : A -> bool) (x : A) (l : list A) :
  (forall y, In y l -> p x = true -> p y = true -> cmp x y <> Gt) ->
  filter p (sort_insert cmp x l) = filter p (x :: l).
Proof.
  induction l as [|y l IH]; intros H; [reflexivity|].
  simpl sort_insert. destruct (cmp x y) eqn:E; try reflexivity.
  simpl. rewrite IH by (intros z Hz; apply H; now right).
  simpl. destruct (p x) eqn:Ex; [|reflexivity].
  destruct (p y) eqn:Ey; [|reflexivity].
  exfalso. apply (H y); auto. now left.
Qed.

Lemma sorted_contents_filter (p : A -> bool) (l : list A) :
  (forall a b, p a = true -> p b = true -> cmp a b <> Gt) ->
  filter p (sorted_contents cmp l) = filter p l.
Proof.
  intros H. induction l as [|x l IH]; [reflexivity|].
  simpl sorted_contents. rewrite sort_insert_filter by (intros; now apply H).
  simpl. now rewrite IH.
Qed.

Hypothesis cmp_total : forall a b, cmp a b = Gt -> cmp b a <> Gt.
Hypothesis cmp_trans :
  forall a b c, cmp a b <> Gt -> cmp b c <> Gt -> cmp a c <> Gt.

Lemma sort_insert_sorted (x : A) (l : list A) :
  StronglySorted (not_after cmp) l ->
  StronglySorted (not_after cmp) (sort_insert cmp x l).
Proof.
  induction 1 as [|y l Hl IH Hy]; simpl.
  - repeat constructor.
  - destruct (cmp x y) eqn:E.
    + constructor; [now constructor|].
      assert (Hxy : not_after cmp x y) by (unfold not_after; congruence).
      constructor; [exact Hxy|].
      eapply Forall_impl; [|exact Hy]. intros z Hz. now apply (cmp_trans x y z).
    + constructor; [now constructor|].
      assert (Hxy : not_after cmp x y) by (unfold not_after; congruence).
      constructor; [exact Hxy|].
      eapply Forall_impl; [|exact Hy]. intros z Hz. now apply (cmp_trans x y z).
    + constructor; [exact IH|].
      eapply Permutation_Forall.
      * symmetry. apply sort_insert_perm.
      * constructor; [now apply cmp_total|exact Hy].
Qed.

Lemma sorted_contents_sorted (l : list A) :
  StronglySorted (not_after cmp) (sorted_contents cmp l).
Proof.
  induction l as [|x l IH]; simpl; [constructor|].
  now apply sort_insert_sorted.
Qed.

(** Sorting changes nothing exactly when the array is in order already. *)
Lemma sorted_contents_fixed (l : list A) :
  sorted_contents cmp l = l <-> StronglySorted (not_after cmp) l.
Proof.
  split.
  - intros H. rewrite <- H. apply sorted_contents_sorted.
  - induction 1 as [|x l Hl IH Hx]; [reflexivity|].
    simpl. rewrite IH. destruct l as [|y l]; [reflexivity|].
    simpl. inversion Hx as [|? ? Hxy _]; subst.
    unfold not_after in Hxy. now destruct (cmp x y).
Qed.

End SortFacts.

(** ** The order of the dates *)

Lemma ascii_compare_refl (a : ascii) : Ascii.compare a a = Eq.
Proof. unfold Ascii.compare. apply N.compare_refl. Qed.

Lemma string_compare_refl (s : string) : String.compare s s = Eq.
Proof.
  induction s as [|c s IH]; simpl; [reflexivity|].
  now rewrite ascii_compare_refl.
Qed.

Lemma string_compare_total (a b : string) :
  String.compare a b = Gt -> String.compare b a <> Gt.
Proof.
  intros H. rewrite String.compare_antisym, H. discriminate.
Qed.

Lemma string_compare_trans (a b c : string) :
  String.compare a b <> Gt -> String.compare b c <> Gt ->
  String.compare a c <> Gt.
Proof.
  revert b c. induction a as [|x a IH]; intros [|y b] [|z c]; simpl;
    try congruence.
  unfold Ascii.compare.
  destruct (N.compare_spec (N_of_ascii x) (N_of_ascii y)) as [Exy|Lxy|Gxy];
    destruct (N.compare_spec (N_of_ascii y) (N_of_ascii z)) as [Eyz|Lyz|Gyz];
    destruct (N.compare_spec (N_of_ascii x) (N_of_ascii z)) as [Exz|Lxz|Gxz];
    try congruence; try lia; try discriminate.
  apply IH.
Qed.

Lemma by_date_total (a b : Entry.t) : by_date a b = Gt -> by_date b a <> Gt.
Proof. apply string_compare_total. Qed.

Lemma by_date_trans (a b c : Entry.t) :
  by_date a b <> Gt -> by_date b c <> Gt -> by_date a c <> Gt.
Proof. apply string_compare_trans. Qed.

Lemma by_date_same (d : string) (a b : Entry.t) :
  same_date d a = true -> same_date d b = true -> by_date a b <> Gt.
Proof.
  unfold same_date, by_date, localeCompare. intros Ha Hb.
  apply String.eqb_eq in Ha, Hb. rewrite Ha, Hb, string_compare_refl.
  discriminate.
Qed.

(** ** Dates of the form dddd-dd-dd *)

Lemma digits_number_acc (s : string) (acc : Z) :
  digits_number acc s
  = (acc * 10 ^ Z.of_nat (digit_count s) + digits_number 0 s)%Z
  /\ (0 <= digits_number 0 s < 10 ^ Z.of_nat (digit_count s))%Z.
Proof.
  revert acc. induction s as [|c s IH]; intros acc.
  - simpl. lia.
  - cbn [digits_number digit_count]. destruct (is_digit c) eqn:Ec.
    + destruct (IH (10 * acc + ParseInt.digit_value c)%Z) as [E1 B].
      destruct (IH (10 * 0 + ParseInt.digit_value c)%Z) as [E2 _].
      rewrite E1, E2.
      assert (Hd : (0 <= ParseInt.digit_value c <= 9)%Z).
      { unfold ParseInt.digit_value, is_digit in *.
        apply andb_true_iff in Ec as [H1 H2].
        apply Nat.leb_le in H1, H2. lia. }
      replace (Z.of_nat (1 + digit_count s)) with (1 + Z.of_nat (digit_count s))%Z
        by lia.
      rewrite Z.pow_add_r by lia. change (10 ^ 1)%Z with 10%Z.
      split; nia.
    + cbn [Nat.add]. apply IH.
Qed.

Lemma aligned_digit_count (a b : string) :
  aligned a b = true -> digit_count a = digit_count b.
Proof.
  revert b. induction a as [|x a IH]; intros [|y b] H; simpl in *;
    try discriminate; [reflexivity|].
  apply andb_true_iff in H as [Hxy H]. rewrite (IH b H).
  apply orb_true_iff in Hxy as [Hxy|Hxy].
  - apply andb_true_iff in Hxy as [-> ->]. reflexivity.
  - apply andb_true_iff in Hxy as [Hxy _].
    apply andb_true_iff in Hxy as [Hx Hy].
    apply negb_true_iff in Hx, Hy. now rewrite Hx, Hy.
Qed.

Lemma digit_compare (x y : ascii) :
  is_digit x = true -> is_digit y = true ->
  Ascii.compare x y
  = Z.compare (ParseInt.digit_value x) (ParseInt.digit_value y).
Proof.
  unfold Ascii.compare, ParseInt.digit_value, is_digit, nat_of_ascii.
  intros Hx Hy.
  apply andb_true_iff in Hx as [Hx1 Hx2]. apply andb_true_iff in Hy as [Hy1 Hy2].
  apply Nat.leb_le in Hx1, Hx2, Hy1, Hy2.
  destruct (N.compare_spec (N_of_ascii x) (N_of_ascii y));
    symmetry; [apply Z.compare_eq_iff|apply Z.compare_lt_iff|apply Z.compare_gt_iff];
    lia.
Qed.

Lemma aligned_compare (a b : string) :
  aligned a b = true ->
  String.compare a b = Z.compare (digits_number 0 a) (digits_number 0 b).
Proof.
  revert b. induction a as [|x a IH]; intros [|y b] H; simpl in H;
    try discriminate; [reflexivity|].
  apply andb_true_iff in H as [Hxy H].
  pose proof (aligned_digit_count a b H) as Hk.
  cbn [String.compare digits_number].
  apply orb_true_iff in Hxy as [Hxy|Hxy].
  - apply andb_true_iff in Hxy as [Hx Hy]. rewrite Hx, Hy.
    rewrite (digit_compare x y Hx Hy), (IH b H).
    destruct (digits_number_acc a (10 * 0 + ParseInt.digit_value x)%Z) as [Ea Ba].
    destruct (digits_number_acc b (10 * 0 + ParseInt.digit_value y)%Z) as [Eb Bb].
    rewrite Ea, Eb, <- Hk in *.
    set (P := (10 ^ Z.of_nat (digit_count a))%Z) in *.
    set (na := digits_number 0 a) in *. set (nb := digits_number 0 b) in *.
    set (dx := ParseInt.digit_value x). set (dy := ParseInt.digit_value y).
    destruct (Z.compare_spec dx dy) as [E|L|G].
    + rewrite E. destruct (Z.compare_spec na nb);
        symmetry; [apply Z.compare_eq_iff|apply Z.compare_lt_iff|apply Z.compare_gt_iff]; nia.
    + symmetry. apply Z.compare_lt_iff. nia.
    + symmetry. apply Z.compare_gt_iff. nia.
  - apply andb_true_iff in Hxy as [Hxy E].
    apply andb_true_iff in Hxy as [Hx Hy].
    apply negb_true_iff in Hx, Hy. apply Ascii.eqb_eq in E. subst y.
    rewrite Hx, ascii_compare_refl. now apply IH.
Qed.

Lemma iso_aligned (a b : string) :
  iso_date_shape a = true -> iso_date_shape b = true -> aligned a b = true.
Proof.
  unfold iso_date_shape. intros Ha Hb.
  do 11 (destruct a as [|? a]; try discriminate).
  do 11 (destruct b as [|? b]; try discriminate).
  repeat match goal with
         | H : _ && _ = true |- _ => apply andb_true_iff in H as [? ?]
         | H : Ascii.eqb _ _ = true |- _ => apply Ascii.eqb_eq in H; subst
         end.
  simpl. repeat match goal with H : is_digit _ = true |- _ => rewrite H; clear H end.
  reflexivity.
Qed.

Lemma date_le_chronological (a b : Entry.t) :
  iso_date_shape (Entry.publication_date a) = true ->
  iso_date_shape (Entry.publication_date b) = true ->
  date_le a b -> chronological a b.
Proof.
  intros Ha Hb H. unfold date_le, not_after, by_date, localeCompare in H.
  rewrite (aligned_compare _ _ (iso_aligned _ _ Ha Hb)) in H.
  now apply Z.compare_le_iff.
Qed.

Lemma StronglySorted_impl_in (A : Type) (R R' : A -> A -> Prop) (l : list A) :
  (forall a b, In a l -> In b l -> R a b -> R' a b) ->
  StronglySorted R l -> StronglySorted R' l.
Proof.
  intros H Hs. induction Hs as [|x l Hl IH Hx]; constructor.
  - apply IH. intros a b Ha Hb. apply H; now right.
  - rewrite Forall_forall in *. intros y Hy.
    apply H; [now left|now right|now apply Hx].
Qed.

(** On dates of the form dddd-dd-dd the order of the code units is the
    order of the days: the sorted array runs from the earliest date to the
    latest. *)
Lemma sorted_contents_chronological (l : list Entry.t) :
  iso_dates l = true ->
  StronglySorted chronological (sorted_contents by_date l).
Proof.
  intros Hiso.
  assert (Hall : forall e, In e (sorted_contents by_date l) ->
                           iso_date_shape (Entry.publication_date e) = true).
  { intros e He. unfold iso_dates in Hiso. rewrite forallb_forall in Hiso.
    apply Hiso. eapply Permutation_in; [apply sorted_contents_perm|exact He]. }
  apply (StronglySorted_impl_in _ date_le).
  - intros a b Ha Hb. apply date_le_chronological; auto.
  - apply sorted_contents_sorted; [apply by_date_total|apply by_date_trans].
Qed.

(** ** Report renderer *)

Lemma generateMarkdownOutput_lines (posts : ref) (inputDate : string) (h : Heap) :
  generateMarkdownOutput posts inputDate h
  = (join newline (markdown_header inputDate
                   ++ map markdown_row (sorted_contents by_date (h posts))),
     heap_set posts (sorted_contents by_date (h posts)) h).
Proof.
  unfold generateMarkdownOutput, markdown_lines, Array_sort, heap_set.
  now rewrite Nat.eqb_refl.
Qed.

(** C5: for publication dates of the form dddd-dd-dd, the rows of the
    report are the entries in ascending order of their publication dates
    (in the order of the strings, which is the order of the days), entries
    of one date in the order they had in the input; for the dates
    2024-11-05, 2024-10-10, 2024-11-05 the entry of 2024-10-10 comes first
    and the other two follow in their original order. *)
Theorem report_sorted_by_date_stable (posts : ref) (inputDate : string)
  (h : Heap) :
  iso_dates (h posts) = true ->
  let sorted := sorted_contents by_date (h posts) in
  (fst (generateMarkdownOutput posts inputDate h)
   = join newline (markdown_header inputDate ++ map markdown_row sorted)
   /\ Permutation sorted (h posts)
   /\ StronglySorted date_le sorted
   /\ StronglySorted chronological sorted
   /\ forall d, filter (same_date d) sorted = filter (same_date d) (h posts))
  /\ map Entry.id (sorted_contents by_date Sample.posts) = [2; 1; 3]%Z
  /\ fst (generateMarkdownOutput 0 "all" Sample.heap)
     = join newline
         [ "# Dev Blog News";
           "## Posts Published After all";
           "";
           "| Date | Title | Author | Type | Views | Post ID |";
           "|------|-------|--------|------|-------|----------|";
           "| 2024-10-10 | [second](https://x.com/second) | Nick Diego | posts | 0 | 2 |";
           "| 2024-11-05 | [first](https://x.com/first) | Nick Diego | posts | 0 | 1 |";
           "| 2024-11-05 | [third](https://x.com/third) | Nick Diego | posts | 0 | 3 |" ].
Proof.
  intros Hiso sorted. split; [|split; reflexivity].
  rewrite generateMarkdownOutput_lines. repeat split.
  - apply sorted_contents_perm.
  - apply sorted_contents_sorted; [apply by_date_total|apply by_date_trans].
  - now apply sorted_contents_chronological.
  - intros d. apply sorted_contents_filter. apply by_date_same.
Qed.

Lemma report_sorted_by_date_stable_witness :
  iso_dates (Sample.heap 0) = true
  /\ map Entry.publication_date (sorted_contents by_date (Sample.heap 0))
     = ["2024-10-10"; "2024-11-05"; "2024-11-05"]
  /\ StronglySorted date_le (sorted_contents by_date (Sample.heap 0))
  /\ filter (same_date "2024-11-05") (sorted_contents by_date (Sample.heap 0))
     = filter (same_date "2024-11-05") (Sample.heap 0).
Proof.
  split; [reflexivity|]. split; [reflexivity|].
  destruct (report_sorted_by_date_stable 0 "all" Sample.heap eq_refl)
    as [[_ [_ [Hsorted [_ Hstable]]]] _].
  split; [exact Hsorted|apply Hstable].
Defined.

(** C10: the call sorts the caller's array in place: for publication dates
    of the form dddd-dd-dd, the array passed holds afterwards its former
    elements in ascending order of the publication dates, every other array
    is as before, and the array is unchanged exactly when it was in
    ascending order already. *)
Theorem generateMarkdownOutput_sorts_in_place (posts : ref)
  (inputDate : string) (h : Heap) :
  iso_dates (h posts) = true ->
  let h' := snd (generateMarkdownOutput posts inputDate h) in
  h' posts = sorted_contents by_date (h posts)
  /\ Permutation (h' posts) (h posts)
  /\ StronglySorted date_le (h' posts)
  /\ StronglySorted chronological (h' posts)
  /\ (forall r, h' r = if Nat.eqb r posts then h' posts else h r)
  /\ (h' posts = h posts <-> StronglySorted date_le (h posts)).
Proof.
  intros Hiso h'. unfold h'. rewrite generateMarkdownOutput_lines.
  unfold heap_set. simpl snd. rewrite Nat.eqb_refl.
  repeat split.
  - apply sorted_contents_perm.
  - apply sorted_contents_sorted; [apply by_date_total|apply by_date_trans].
  - now apply sorted_contents_chronological.
  - apply sorted_contents_fixed; [apply by_date_total|apply by_date_trans].
  - apply sorted_contents_fixed; [apply by_date_total|apply by_date_trans].
Qed.

Lemma generateMarkdownOutput_sorts_in_place_witness :
  iso_dates (Sample.heap 0) = true
  /\ ~ StronglySorted date_le (Sample.heap 0)
  /\ snd (generateMarkdownOutput 0 "all" Sample.heap) 0 <> Sample.heap 0
  /\ map Entry.id (snd (generateMarkdownOutput 0 "all" Sample.heap) 0)
     = [2; 1; 3]%Z.
Proof.
  split; [reflexivity|].
  destruct (generateMarkdownOutput_sorts_in_place 0 "all" Sample.heap eq_refl)
    as [Hsort [_ [_ [_ [_ Hiff]]]]].
  assert (Hno : ~ StronglySorted date_le (Sample.heap 0)).
  { intros H. inversion H as [|? ? _ Hall]; subst.
    inversion Hall as [|? ? Hle _]; subst. apply Hle. reflexivity. }
  split; [exact Hno|]. split.
  - intros E. apply Hno, Hiff, E.
  - rewrite Hsort. reflexivity.
Defined.

(** ** Keys of the mapping *)

Lemma insert_index_in (x y : N * string) (l : list (N * string)) :
  In x (Obj.insert_index y l) -> x = y \/ In x l.
Proof.
  induction l as [|z l IH]; simpl.
  - intros [H|[]]; auto.
  - destruct (fst y <=? fst z)%N; simpl; intuition.
Qed.

Lemma index_keys_in (k : string) (ks : list string) :
  In k (map snd (Obj.index_keys ks)) -> In k ks.
Proof.
  intros H. apply in_map_iff in H as [[n k'] [E H]]. simpl in E. subst k'.
  induction ks as [|k0 ks IH]; simpl in *; [easy|].
  destruct (Obj.array_index k0).
  - apply insert_index_in in H as [H|H]; [left; congruence|right; auto].
  - right; auto.
Qed.

Lemma keys_own (o : Obj.t) (k : string) :
  In k (Obj.keys o) -> In k (map fst (Obj.own o)).
Proof.
  unfold Obj.keys. intros H. apply in_app_or in H as [H|H].
  - now apply index_keys_in.
  - now apply filter_In in H as [H _].
Qed.

Lemma own_get_in (k : string) (l : list (string * View.t)) :
  In k (map fst l) -> exists v, Obj.own_get k l = Some v.
Proof.
  induction l as [|[k' v] l IH]; simpl; [easy|].
  destruct (String.eqb k' k) eqn:E; [eauto|].
  intros [H|H]; [|auto]. apply String.eqb_neq in E. contradiction.
Qed.

(** Reading the mapping at one of its keys yields a record. *)
Lemma keys_get (o : Obj.t) (k : string) :
  In k (Obj.keys o) -> exists v, Obj.get o k = Some v.
Proof.
  intros H. apply keys_own, own_get_in in H as [v E].
  exists v. unfold Obj.get. now rewrite E.
Qed.

(** ** Content fetcher *)

Lemma find_match_some (viewsData : Obj.t) (n k : string) :
  find_match viewsData n = Some k ->
  In k (Obj.keys viewsData) /\ normalizeUrl k = n.
Proof.
  unfold find_match. intros H. apply find_some in H as [Hin E].
  now apply String.eqb_eq in E.
Qed.

Lemma find_match_none (viewsData : Obj.t) (n : string) :
  find_match viewsData n = None <->
  forall k, In k (Obj.keys viewsData) -> normalizeUrl k <> n.
Proof.
  unfold find_match. split.
  - intros H k Hk. apply String.eqb_neq. exact (find_none _ _ H k Hk).
  - intros H. destruct (find _ _) as [k|] eqn:E; [|reflexivity].
    apply find_some in E as [Hin E]. apply String.eqb_eq in E.
    now apply H in Hin.
Qed.

Lemma matched_views_defined (viewsData : Obj.t) (n : string) :
  matched_views viewsData (find_match viewsData n) <> None.
Proof.
  destruct (find_match viewsData n) as [k|] eqn:E; simpl; [|discriminate].
  destruct (truthy k); [|discriminate].
  apply find_match_some in E as [Hin _].
  apply keys_get in Hin as [v Hv]. rewrite Hv. discriminate.
Qed.

Section FetcherFacts.

Variable World : Type.
Variable axios_get : World -> Request.t -> World * Response.
Variable iso_date : string -> option string.

(** Only the date can make the construction of an entry throw. *)
Lemma format_post_defined (viewsData : Obj.t) (postType : string)
  (post : Post.t) :
  iso_date (Post.date post) <> None ->
  format_post iso_date viewsData postType post <> None.
Proof.
  intros Hd. unfold format_post.
  pose proof (matched_views_defined viewsData (normalizeUrl (Post.link post))) as Hv.
  destruct (matched_views _ _); [|congruence].
  destruct (iso_date _); [discriminate|congruence].
Qed.

(** The views of an entry: 0 without a matching key, the views recorded
    under the first matching key when this key is not the empty string, and
    0 again when it is. *)
Lemma format_post_views (viewsData : Obj.t) (postType : string)
  (post : Post.t) (entry : Entry.t) :
  format_post iso_date viewsData postType post = Some entry ->
  Entry.url entry = Post.link post
  /\ Entry.type entry = postType
  /\ match find_match viewsData (normalizeUrl (Post.link post)) with
     | None =>
         (forall k, In k (Obj.keys viewsData) ->
                    normalizeUrl k <> normalizeUrl (Post.link post))
         /\ Entry.views entry = Num 0
     | Some k =>
         In k (Obj.keys viewsData)
         /\ normalizeUrl k = normalizeUrl (Post.link post)
         /\ if truthy k
            then exists r, Obj.get viewsData k = Some r
                           /\ Entry.views entry = View.views r
            else Entry.views entry = Num 0
     end.
Proof.
  unfold format_post. intros H.
  destruct (find_match viewsData (normalizeUrl (Post.link post))) as [k|] eqn:E.
  - pose proof (find_match_some _ _ _ E) as [Hin Hk].
    destruct (keys_get _ _ Hin) as [r Hr].
    simpl in H. rewrite Hr in H.
    destruct (truthy k); destruct (iso_date _); try discriminate;
      inversion H; subst; simpl; repeat split; eauto.
  - simpl in H. destruct (iso_date _); [|discriminate].
    inversion H; subst; simpl. repeat split.
    now apply find_match_none.
Qed.

Lemma push_posts_app (viewsData : Obj.t) (postType : string)
  (data : list Post.t) (allPosts : list Entry.t) :
  push_posts iso_date viewsData postType data allPosts
  = allPosts ++ push_posts iso_date viewsData postType data [].
Proof.
  revert allPosts. induction data as [|post data IH]; intros allPosts; simpl.
  - now rewrite app_nil_r.
  - destruct (format_post iso_date viewsData postType post) as [entry|].
    + rewrite IH, (IH [entry]), <- app_assoc. reflexivity.
    + now rewrite app_nil_r.
Qed.

(** Each category appends its own entries to what the categories before it
    collected; a rejected request appends nothing. *)
Lemma fetch_loop_responses (o : Options.t) (postTypes : list string)
  (w : World) (allPosts : list Entry.t) :
  snd (fetch_loop axios_get iso_date o postTypes w allPosts)
  = allPosts
    ++ flat_map (fun c => match snd c with
                          | Rejected _ => []
                          | Resolved data =>
                              push_posts iso_date (views_of o) (fst c) data []
                          end)
                (responses axios_get o postTypes w).
Proof.
  revert w allPosts. induction postTypes as [|postType rest IH];
    intros w allPosts; simpl.
  - now rewrite app_nil_r.
  - destruct (axios_get w (request o postType)) as [w' [message|data]]; simpl.
    + apply IH.
    + rewrite IH, push_posts_app, <- app_assoc. reflexivity.
Qed.

Lemma push_posts_prefix (viewsData : Obj.t) (postType : string)
  (data : list Post.t) :
  map Some (push_posts iso_date viewsData postType data [])
  = map (format_post iso_date viewsData postType)
        (convertible_prefix iso_date data).
Proof.
  induction data as [|post data IH]; [reflexivity|]. simpl.
  destruct (iso_date (Post.date post)) as [d|] eqn:Ed.
  - pose proof (format_post_defined viewsData postType post) as Hp.
    rewrite Ed in Hp.
    destruct (format_post iso_date viewsData postType post) as [entry|] eqn:Ef;
      [|exfalso; apply Hp; [discriminate|reflexivity]].
    rewrite push_posts_app. simpl. now rewrite Ef, IH.
  - unfold format_post. rewrite Ed.
    now destruct (matched_views viewsData _).
Qed.

Lemma convertible_prefix_all (data : list Post.t) :
  (forall post, In post data -> iso_date (Post.date post) <> None) ->
  convertible_prefix iso_date data = data.
Proof.
  induction data as [|post data IH]; intros H; [reflexivity|]. simpl.
  destruct (iso_date (Post.date post)) eqn:E.
  - rewrite IH; [reflexivity|]. intros p Hp. apply H. now right.
  - exfalso. apply (H post); [now left|exact E].
Qed.

(** C6: [fetchWordPressPosts] returns, whatever requests are rejected, and
    its result is, in the order of the categories, what each category
    yields by itself. A rejected request yields nothing, so that the result
    is the one of the resolved categories alone; a resolved request yields
    the entries of its items (of the items before the first one whose date
    does not convert, should there be one), whatever happens to the other
    categories. *)
Theorem fetch_failure_isolated (o : Options.t) (w : World) :
  let rs := responses axios_get o (Options.postTypes o) w in
  snd (fetchWordPressPosts axios_get iso_date o w)
  = flat_map (category_result iso_date (views_of o)) rs
  /\ snd (fetchWordPressPosts axios_get iso_date o w)
     = flat_map (category_result iso_date (views_of o)) (filter resolved rs)
  /\ Forall (fun c =>
               match snd c with
               | Rejected _ => category_result iso_date (views_of o) c = []
               | Resolved data =>
                   map Some (category_result iso_date (views_of o) c)
                   = map (format_post iso_date (views_of o) (fst c))
                         (convertible_prefix iso_date data)
               end) rs.
Proof.
  intros rs.
  assert (Hall : snd (fetchWordPressPosts axios_get iso_date o w)
                 = flat_map (category_result iso_date (views_of o)) rs).
  { unfold fetchWordPressPosts. now rewrite fetch_loop_responses. }
  split; [exact Hall|]. split.
  - rewrite Hall. clear Hall.
    induction rs as [|[postType response] rs IH]; [reflexivity|].
    destruct response as [message|data].
    + exact IH.
    + change (filter resolved ((postType, Resolved data) :: rs))
        with ((postType, Resolved data) :: filter resolved rs).
      simpl flat_map. now rewrite IH.
  - apply Forall_forall. intros [postType response] _.
    destruct response as [message|data]; [reflexivity|].
    apply push_posts_prefix.
Qed.

Lemma push_posts_in (viewsData : Obj.t) (postType : string)
  (data : list Post.t) (entry : Entry.t) :
  In entry (push_posts iso_date viewsData postType data []) ->
  exists post, In post data
               /\ format_post iso_date viewsData postType post = Some entry.
Proof.
  induction data as [|post data IH]; simpl; [easy|].
  destruct (format_post iso_date viewsData postType post) as [e|] eqn:E;
    [|easy].
  rewrite push_posts_app. simpl. intros [H|H].
  - subst e. exists post. auto.
  - destruct (IH H) as [p [Hp Hf]]. exists p. auto.
Qed.

(** Every entry of the result is built from an item of a resolved
    response. *)
Lemma fetch_entry_origin (o : Options.t) (w : World) (entry : Entry.t) :
  In entry (snd (fetchWordPressPosts axios_get iso_date o w)) ->
  exists postType data post,
    In (postType, Resolved data)
       (responses axios_get o (Options.postTypes o) w)
    /\ In post data
    /\ format_post iso_date (views_of o) postType post = Some entry.
Proof.
  unfold fetchWordPressPosts. rewrite fetch_loop_responses. simpl app.
  intros H. apply in_flat_map in H as [[postType response] [Hin H]].
  simpl in H. destruct response as [message|data]; [easy|].
  apply push_posts_in in H as [post [Hp Hf]].
  exists postType, data, post. auto.
Qed.

(** The views of an entry of the result are never taken from a record whose
    key does not match: they are 0, or the views of a record whose key
    normalizes to the normalized URL of the entry. *)
Lemma fetch_views_from_match (o : Options.t) (w : World) (entry : Entry.t) :
  In entry (snd (fetchWordPressPosts axios_get iso_date o w)) ->
  Entry.views entry = Num 0
  \/ exists k r, In k (Obj.keys (views_of o))
                 /\ normalizeUrl k = normalizeUrl (Entry.url entry)
                 /\ Obj.get (views_of o) k = Some r
                 /\ Entry.views entry = View.views r.
Proof.
  intros H. apply fetch_entry_origin in H as [postType [data [post [_ [_ H]]]]].
  apply format_post_views in H as [Hurl [_ H]]. rewrite Hurl.
  destruct (find_match _ _) as [k|].
  - destruct H as [Hin [Hk H]]. destruct (truthy k); [|now left].
    destruct H as [r [Hr Hv]]. right. exists k, r. auto.
  - now left.
Qed.

End FetcherFacts.

(** A run in which the request for the videos is rejected. *)
Example fetch_sample_run :
  responses Sample.network Sample.options POST_TYPES tt
  = [ ("snippets", Resolved [Sample.snippet]);
      ("dev-blog-videos", Rejected "Request failed with status code 500");
      ("posts", Resolved [Sample.hybrid; Sample.anonymous]) ]
  /\ map Some (snd (fetchWordPressPosts Sample.network Sample.iso_date
                                        Sample.options tt))
     = [ format_post Sample.iso_date Sample.viewsData "snippets" Sample.snippet;
         format_post Sample.iso_date Sample.viewsData "posts" Sample.hybrid;
         format_post Sample.iso_date Sample.viewsData "posts" Sample.anonymous ].
Proof. split; reflexivity. Qed.

(** The scenario of the specification: the item carries the day in its URL,
    the mapping does not, and the views are found. *)
Example fetch_scenario :
  option_map Entry.views
    (format_post Sample.iso_date Sample.viewsData "posts" Sample.hybrid)
  = Some (Num 1975).
Proof. reflexivity. Qed.

(** C3, on the code: line 134 tests the key found as a condition, and the
    empty string counts as false. With the mapping of the row
    [Home,42,/], whose only key is the empty string, and an item whose link
    is [/], the key matches the entry's normalized URL and its record has 42
    views, yet the entry gets 0 views. *)
Theorem fetch_ignores_empty_key :
  let o := Options.mk BASE_URL ["posts"] None None None (Some Sample.rootViews) in
  Obj.keys Sample.rootViews = [""]
  /\ Obj.get Sample.rootViews "" = Some (View.mk "Home" (Num 42))
  /\ normalizeUrl "" = normalizeUrl (Post.link Sample.root)
  /\ find_match Sample.rootViews (normalizeUrl (Post.link Sample.root)) = Some ""
  /\ snd (fetchWordPressPosts Sample.rootNetwork Sample.iso_date o tt)
     = [ Entry.mk 7 "Home" "2024-12-03" "Nick Diego" "/" "posts" (Num 0) ].
Proof. repeat split; reflexivity. Qed.

(** * Further properties *)

(** ** Normalizer *)

Lemma join_cons_char (c : ascii) (h : string) (t : list string) :
  join "/" (String c h :: t) = String c (join "/" (h :: t)).
Proof. destruct t; reflexivity. Qed.

Lemma join_split (s : string) : join "/" (split_slash s) = s.
Proof.
  induction s as [|c s IH]; [reflexivity|]. simpl.
  destruct (split_slash_cons s) as [h [t E]]. rewrite E in *.
  destruct (Ascii.eqb c slash) eqn:Ec.
  - apply Ascii.eqb_eq in Ec. subst c.
    change (join "/" (EmptyString :: h :: t))
      with (String slash (join "/" (h :: t))).
    now rewrite IH.
  - now rewrite join_cons_char, IH.
Qed.

Lemma toLowerCase_app (a b : string) :
  toLowerCase (a ++ b) = (toLowerCase a ++ toLowerCase b)%string.
Proof. induction a as [|c a IH]; simpl; [reflexivity|]. now rewrite IH. Qed.

Lemma toLowerCase_join (l : list string) :
  toLowerCase (join "/" l) = join "/" (map toLowerCase l).
Proof.
  induction l as [|x l IH]; [reflexivity|].
  destruct l as [|y l]; [reflexivity|].
  change (join "/" (x :: y :: l)) with (x ++ "/" ++ join "/" (y :: l))%string.
  rewrite !toLowerCase_app, IH. reflexivity.
Qed.

Lemma strip_last_char_snoc (c : ascii) (s : string) :
  strip_last_char c (s ++ String c EmptyString) = s.
Proof.
  induction s as [|a s IH]; simpl.
  - now rewrite Ascii.eqb_refl.
  - rewrite IH. destruct (s ++ String c EmptyString)%string eqn:E;
      [destruct s; discriminate|reflexivity].
Qed.

Lemma strip_lower (s : string) :
  strip_trailing_slash (toLowerCase s) = toLowerCase (strip_trailing_slash s).
Proof.
  unfold strip_trailing_slash.
  induction s as [|c s IH]; [reflexivity|].
  destruct s as [|c' s'].
  - simpl. rewrite lower_char_slash. now destruct (Ascii.eqb c slash).
  - change (toLowerCase (String c (String c' s')))
      with (String (lower_char c) (toLowerCase (String c' s'))).
    change (strip_last_char slash (String c (String c' s')))
      with (String c (strip_last_char slash (String c' s'))).
    change (toLowerCase (String c (strip_last_char slash (String c' s'))))
      with (String (lower_char c)
                   (toLowerCase (strip_last_char slash (String c' s')))).
    rewrite <- IH. reflexivity.
Qed.

Lemma normalize_parts_no_year (l : list string) :
  no_year l = true -> normalize_parts l = l.
Proof.
  unfold no_year. induction l as [|p l IH]; [reflexivity|]. simpl.
  intros H. apply andb_true_iff in H as [Hp Hl].
  apply negb_true_iff in Hp. now rewrite Hp, IH.
Qed.

Lemma normalize_parts_app_no_year (pre l : list string) :
  no_year pre = true ->
  normalize_parts (pre ++ l) = pre ++ normalize_parts l.
Proof.
  unfold no_year. induction pre as [|p pre IH]; [reflexivity|]. simpl.
  intros H. apply andb_true_iff in H as [Hp Hpre].
  apply negb_true_iff in Hp. now rewrite Hp, IH.
Qed.

(** X1: normalization does not see the case of ASCII letters nor one
    trailing slash: two URLs that agree up to case, the first without a
    slash at its end, normalize to the same string, with or without a slash
    added to the second. *)
Theorem normalizeUrl_case_and_slash (u v : string) :
  toLowerCase u = toLowerCase v ->
  strip_trailing_slash u = u ->
  normalizeUrl v = normalizeUrl u
  /\ normalizeUrl (v ++ "/") = normalizeUrl u.
Proof.
  intros Hcase Hslash.
  assert (Hu : url_parts u = split_slash (toLowerCase u)).
  { unfold url_parts. now rewrite strip_lower, Hslash. }
  rewrite !normalizeUrl_parts. split; f_equal; f_equal.
  - unfold url_parts. now rewrite Hcase.
  - rewrite Hu. unfold url_parts, strip_trailing_slash.
    rewrite toLowerCase_app. simpl toLowerCase.
    change (String (lower_char "/") EmptyString) with (String slash EmptyString).
    now rewrite strip_last_char_snoc, Hcase.
Qed.

Lemma normalizeUrl_case_and_slash_witness :
  normalizeUrl "HTTP://X.com/A" = normalizeUrl "http://x.com/a"
  /\ normalizeUrl ("HTTP://X.com/A" ++ "/") = normalizeUrl "http://x.com/a".
Proof.
  apply (normalizeUrl_case_and_slash "http://x.com/a" "HTTP://X.com/A");
    reflexivity.
Defined.

(** X2: a URL none of whose segments is made of four digits normalizes to
    itself in lower case without its trailing slash. *)
Theorem normalizeUrl_without_year (u : string) :
  no_year (url_parts u) = true ->
  normalizeUrl u = strip_trailing_slash (toLowerCase u).
Proof.
  intros H. rewrite normalizeUrl_parts, normalize_parts_no_year by assumption.
  apply join_split.
Qed.

Lemma normalizeUrl_without_year_witness :
  normalizeUrl "https://Developer.WordPress.org/news/snippets/lock-blocks/"
  = strip_trailing_slash
      (toLowerCase "https://Developer.WordPress.org/news/snippets/lock-blocks/").
Proof. apply normalizeUrl_without_year. reflexivity. Defined.

(** X3: a four-digit segment that is not followed by a one- or two-digit
    segment comes out twice: when it is the only four-digit segment of the
    URL, the result is the segments of the URL with this one doubled. *)
Theorem normalizeUrl_doubles_lone_year (u : string) (pre : list string)
  (y : string) (rest : list string) :
  url_parts u = pre ++ y :: rest ->
  is_year y = true ->
  head_short rest = false ->
  no_year pre = true ->
  no_year rest = true ->
  normalizeUrl u = join "/" (pre ++ y :: y :: rest).
Proof.
  intros Hu Hy Hrest Hpre Hnone.
  rewrite normalizeUrl_parts, Hu.
  rewrite normalize_parts_app_no_year by assumption.
  rewrite normalize_parts_year by assumption.
  now rewrite normalize_parts_no_year.
Qed.

Lemma normalizeUrl_doubles_lone_year_witness :
  normalizeUrl "https://x.com/archive/2024/Post/"
  = join "/" (["https:"; ""; "x.com"; "archive"] ++ ["2024"; "2024"; "post"]).
Proof.
  apply (normalizeUrl_doubles_lone_year "https://x.com/archive/2024/Post/"
           ["https:"; ""; "x.com"; "archive"] "2024" ["post"]); reflexivity.
Defined.

(** X4: the result of [normalizeUrl] is in lower case. *)
Theorem normalizeUrl_lower_case (u : string) :
  toLowerCase (normalizeUrl u) = normalizeUrl u.
Proof.
  rewrite normalizeUrl_parts, toLowerCase_join. f_equal.
  rewrite <- (map_id (normalize_parts (url_parts u))) at 2.
  apply map_ext_in. intros x Hx. apply normalize_parts_incl in Hx.
  now apply (url_parts_lower u).
Qed.

(** X5: [normalizeUrl] makes up no segment: the segments of the result are
    segments of the URL in lower case. *)
Theorem normalizeUrl_segments (u : string) :
  incl (split_slash (normalizeUrl u)) (url_parts u).
Proof.
  rewrite normalizeUrl_parts, split_join.
  - intros x. apply normalize_parts_incl.
  - apply normalize_parts_nonempty, url_parts_nonempty.
  - apply forallb_forall. intros x Hx. apply normalize_parts_incl in Hx.
    pose proof (url_parts_no_slash u) as H.
    rewrite forallb_forall in H. now apply H.
Qed.

(** ** Keys of the imported mapping *)

Lemma insert_index_perm (x : N * string) (l : list (N * string)) :
  Permutation (Obj.insert_index x l) (x :: l).
Proof.
  induction l as [|y l IH]; simpl; [reflexivity|].
  destruct (fst x <=? fst y)%N; [reflexivity|].
  rewrite IH. apply perm_swap.
Qed.

Lemma index_keys_perm (ks : list string) :
  Permutation (map snd (Obj.index_keys ks))
    (filter (fun k => match Obj.array_index k with
                      | Some _ => true | None => false end) ks).
Proof.
  induction ks as [|k ks IH]; simpl; [reflexivity|].
  destruct (Obj.array_index k) as [n|]; [|exact IH].
  rewrite insert_index_perm. simpl. now constructor.
Qed.

(** [Object.keys] lists every own key once. *)
Lemma keys_perm (o : Obj.t) :
  Permutation (Obj.keys o) (map fst (Obj.own o)).
Proof.
  unfold Obj.keys. rewrite index_keys_perm.
  induction (map fst (Obj.own o)) as [|k ks IH]; simpl; [reflexivity|].
  destruct (Obj.array_index k); simpl.
  - now constructor.
  - rewrite <- Permutation_middle. now constructor.
Qed.

Lemma own_get_none (k : string) (l : list (string * View.t)) :
  Obj.own_get k l = None <-> ~ In k (map fst l).
Proof.
  induction l as [|[k' v] l IH]; simpl; [tauto|].
  destruct (String.eqb k' k) eqn:E.
  - apply String.eqb_eq in E. split; [discriminate|tauto].
  - apply String.eqb_neq in E. rewrite IH. tauto.
Qed.

Lemma own_set_keys (k : string) (v : View.t) (l : list (string * View.t)) :
  map fst (Obj.own_set k v l)
  = match Obj.own_get k l with
    | Some _ => map fst l
    | None => map fst l ++ [k]
    end.
Proof.
  induction l as [|[k' v'] l IH]; simpl; [reflexivity|].
  destruct (String.eqb k' k) eqn:E; simpl.
  - apply String.eqb_eq in E. now subst k'.
  - rewrite IH. now destruct (Obj.own_get k l).
Qed.

(** The own keys after an assignment: unchanged for a key that is there
    already and for [__proto__], one more key at the end otherwise. *)
Lemma set_keys (k : string) (v : View.t) (o : Obj.t) :
  (map fst (Obj.own (Obj.set k v o)) = map fst (Obj.own o)
   /\ (In k (map fst (Obj.own o)) \/ k = "__proto__"))
  \/ (map fst (Obj.own (Obj.set k v o)) = map fst (Obj.own o) ++ [k]
      /\ ~ In k (map fst (Obj.own o)) /\ k <> "__proto__").
Proof.
  unfold Obj.set. pose proof (own_set_keys k v (Obj.own o)) as Hk.
  destruct (Obj.own_get k (Obj.own o)) eqn:E.
  - left. cbn [Obj.own]. split; [exact Hk|]. left.
    destruct (in_dec string_dec k (map fst (Obj.own o))) as [H|H]; [exact H|].
    apply own_get_none in H. congruence.
  - apply own_get_none in E.
    destruct (String.eqb k "__proto__") eqn:Ep; cbn [Obj.own].
    + left. apply String.eqb_eq in Ep. auto.
    + right. apply String.eqb_neq in Ep. auto.
Qed.

(** The own keys of the mapping [csvToJson] builds. *)
Lemma csvToJson_own_keys (records : list (list string)) :
  let ks := map fst (Obj.own (Csv.viewsData (csvToJson records))) in
  NoDup ks
  /\ (forall k, In k ks <->
                k <> "__proto__"
                /\ exists row, In row records /\ row_key row = Some k)
  /\ List.length ks <= Csv.processed (csvToJson records).
Proof.
  induction records as [|row records IH] using rev_ind.
  - simpl. split; [constructor|]. split; [|lia].
    intros k. split; [easy|]. intros [_ [row [[] _]]].
  - rewrite csvToJson_snoc. cbv zeta in IH. destruct IH as [Hnd [Hin Hlen]].
    destruct (row_key row) as [k0|] eqn:Ek.
    + destruct row as [|title [|views [|url extra]]]; try discriminate.
      simpl in Ek. injection Ek as Ek.
      cbn [csv_row Csv.viewsData Csv.processed]. rewrite Ek.
      set (o := Csv.viewsData (csvToJson records)) in *.
      destruct (set_keys k0 (row_record title views) o)
        as [[E Hcase]|[E [Hnew Hproto]]]; cbv zeta; rewrite E.
      * split; [exact Hnd|]. split; [|lia].
        intros k. rewrite Hin. split.
        -- intros [Hk [r [Hr Hkey]]]. split; [exact Hk|].
           exists r. split; [apply in_or_app; now left|exact Hkey].
        -- intros [Hk [r [Hr Hkey]]]. split; [exact Hk|].
           apply in_app_or in Hr as [Hr|[Hr|[]]]; [eauto|].
           subst r. simpl in Hkey. rewrite Ek in Hkey. injection Hkey as <-.
           destruct Hcase as [Hcase|Hcase]; [|contradiction].
           apply Hin in Hcase as [_ Hcase]. exact Hcase.
      * split; [|split].
        -- apply NoDup_app_remove_r with (l' := []).
           rewrite app_nil_r.
           apply Permutation_NoDup with (l := k0 :: map fst (Obj.own o)).
           ++ apply Permutation_cons_append.
           ++ now constructor.
        -- intros k. rewrite in_app_iff, Hin. simpl. split.
           ++ intros [[Hk [r [Hr Hkey]]]|[<-|[]]].
              ** split; [exact Hk|]. exists r.
                 split; [apply in_or_app; now left|exact Hkey].
              ** split; [exact Hproto|].
                 exists (title :: views :: url :: extra).
                 split; [apply in_or_app; right; now left|].
                 simpl. now rewrite Ek.
           ++ intros [Hk [r [Hr Hkey]]].
              apply in_app_or in Hr as [Hr|[Hr|[]]]; [left; eauto|].
              subst r. simpl in Hkey. rewrite Ek in Hkey.
              injection Hkey as <-. right. now left.
        -- rewrite length_app. simpl. lia.
    + assert (Hshort : csv_row (csvToJson records) row
                       = Csv.mk (Csv.viewsData (csvToJson records))
                                (Csv.processed (csvToJson records))
                                (S (Csv.skipped (csvToJson records)))).
      { destruct row as [|a [|b [|c row]]]; try reflexivity. discriminate. }
      rewrite Hshort. cbn [Csv.viewsData Csv.processed]. cbv zeta.
      split; [exact Hnd|]. split; [|exact Hlen].
      intros k. rewrite Hin. split.
      * intros [Hk [r [Hr Hkey]]]. split; [exact Hk|].
        exists r. split; [apply in_or_app; now left|exact Hkey].
      * intros [Hk [r [Hr Hkey]]]. split; [exact Hk|].
        apply in_app_or in Hr as [Hr|[Hr|[]]]; [eauto|].
        subst r. congruence.
Qed.

(** X6: the keys [Object.keys] lists for the mapping [csvToJson] returns
    are the cleaned URLs of the rows with three fields or more, except that
    a row whose cleaned URL is [__proto__] leaves no key (it replaces the
    prototype of the object). *)
Theorem csvToJson_keys (records : list (list string)) (k : string) :
  In k (Obj.keys (Csv.viewsData (csvToJson records)))
  <-> k <> "__proto__"
      /\ exists row, In row records /\ row_key row = Some k.
Proof.
  destruct (csvToJson_own_keys records) as [_ [Hin _]].
  rewrite <- Hin. split; apply Permutation_in.
  - apply keys_perm.
  - symmetry. apply keys_perm.
Qed.

Lemma csvToJson_keys_witness :
  In "https://x.com/a"
     (Obj.keys (Csv.viewsData
                  (csvToJson [ ["Title A"; "42"; "https://x.com/a/"];
                               ["Proto"; "1"; "__proto__"] ])))
  /\ ~ In "__proto__"
        (Obj.keys (Csv.viewsData
                     (csvToJson [ ["Title A"; "42"; "https://x.com/a/"];
                                  ["Proto"; "1"; "__proto__"] ]))).
Proof.
  split.
  - apply csvToJson_keys. split; [discriminate|].
    exists ["Title A"; "42"; "https://x.com/a/"]. split; [now left|reflexivity].
  - intros H. apply csvToJson_keys in H as [H _]. now apply H.
Defined.

(** X7: the keys of the mapping are pairwise different, and there are no
    more of them than rows counted as processed. *)
Theorem csvToJson_keys_distinct (records : list (list string)) :
  NoDup (Obj.keys (Csv.viewsData (csvToJson records)))
  /\ List.length (Obj.keys (Csv.viewsData (csvToJson records)))
     <= Csv.processed (csvToJson records).
Proof.
  destruct (csvToJson_own_keys records) as [Hnd [_ Hlen]].
  pose proof (keys_perm (Csv.viewsData (csvToJson records))) as Hp. split.
  - eapply Permutation_NoDup; [symmetry; exact Hp|exact Hnd].
  - rewrite (Permutation_length Hp), length_map in *. exact Hlen.
Qed.

(** ** Fields of the CSV rows *)

Lemma append_assoc (a b c : string) : ((a ++ b) ++ c = a ++ (b ++ c))%string.
Proof. induction a as [|x a IH]; simpl; [reflexivity|]. now rewrite IH. Qed.

Lemma strip_quotes_quoted (s : string) : strip_quotes (quoted s) = s.
Proof.
  unfold strip_quotes, quoted. simpl. apply strip_last_char_snoc.
Qed.

Lemma cleanUrl_quoted (url : string) : cleanUrl (quoted (url ++ "/")) = url.
Proof.
  unfold cleanUrl. rewrite strip_quotes_quoted.
  apply (strip_last_char_snoc slash).
Qed.

(** X8: a row whose title and URL are written between quotes, the URL with
    a slash at its end, is stored under the bare URL with the bare title. *)
Theorem csvToJson_unquotes (records : list (list string))
  (title views url : string) :
  Obj.get (Csv.viewsData
             (csvToJson (records ++ [[quoted title; views; quoted (url ++ "/")]])))
          url
  = Some (View.mk title (parseInt views)).
Proof.
  rewrite csvToJson_snoc. cbn [csv_row Csv.viewsData].
  rewrite cleanUrl_quoted. unfold row_record.
  rewrite strip_quotes_quoted. apply get_set_same.
Qed.

(** ** [parseInt] on numerals *)

Lemma string_of_uint_digits (d : Decimal.uint) :
  all_chars is_digit (NilEmpty.string_of_uint d) = true.
Proof. induction d; simpl; auto. Qed.

Lemma digits_acc (d : Decimal.uint) (p : positive) :
  ParseInt.digits (Some (Zpos p)) (NilEmpty.string_of_uint d)
  = Some (Zpos (Pos.of_uint_acc d p)).
Proof.
  revert p. induction d; intros p; [reflexivity|..].
  all: cbn [NilEmpty.string_of_uint ParseInt.digits Pos.of_uint_acc].
  all: change (is_digit _) with true; cbv iota.
  all: rewrite <- IHd; f_equal; f_equal.
  all: unfold ParseInt.digit_value; simpl nat_of_ascii; simpl Nat.sub; lia.
Qed.

Lemma digits_zero (d : Decimal.uint) :
  ParseInt.digits (Some 0%Z) (NilEmpty.string_of_uint d)
  = Some (Z.of_N (Pos.of_uint d)).
Proof.
  induction d; simpl; [reflexivity|exact IHd|..]; apply digits_acc.
Qed.

Lemma digits_start (c : ascii) (s : string) :
  is_digit c = true ->
  ParseInt.digits None (String c s) = ParseInt.digits (Some 0%Z) (String c s).
Proof. intros H. simpl. now rewrite H. Qed.

Lemma digit_not_space_sign (c : ascii) :
  is_digit c = true ->
  is_space c = false /\ Ascii.eqb c "-" = false /\ Ascii.eqb c "+" = false.
Proof. destruct c as [[] [] [] [] [] [] [] []]; try discriminate; repeat split. Qed.

(** A numeral without sign is read from its first digit. *)
Lemma parseInt_unsigned (c : ascii) (s : string) :
  is_digit c = true -> parseInt (String c s) = ParseInt.signed 1 (String c s).
Proof.
  intros H. destruct (digit_not_space_sign c H) as [Hs [Hm Hp]].
  unfold parseInt. simpl ParseInt.skip_spaces. now rewrite Hs, Hm, Hp.
Qed.

Lemma parseInt_uint (d : Decimal.uint) :
  d <> Decimal.Nil ->
  parseInt (NilEmpty.string_of_uint d) = Num (Z.of_N (Pos.of_uint d))
  /\ parseInt (String "-" (NilEmpty.string_of_uint d))
     = Num (- Z.of_N (Pos.of_uint d)).
Proof.
  intros Hd.
  assert (Hdig : ParseInt.digits None (NilEmpty.string_of_uint d)
                 = Some (Z.of_N (Pos.of_uint d))).
  { rewrite <- digits_zero. pose proof (string_of_uint_digits d) as Hall.
    destruct (NilEmpty.string_of_uint d) as [|c s] eqn:E.
    - destruct d; discriminate || congruence.
    - simpl in Hall. apply andb_true_iff in Hall as [Hc _].
      now apply digits_start. }
  split.
  - pose proof (string_of_uint_digits d) as Hall.
    destruct (NilEmpty.string_of_uint d) as [|c s] eqn:E.
    + destruct d; discriminate || congruence.
    + simpl in Hall. apply andb_true_iff in Hall as [Hc _].
      rewrite parseInt_unsigned by assumption.
      unfold ParseInt.signed. rewrite Hdig. f_equal; lia.
  - unfold parseInt. simpl. unfold ParseInt.signed. rewrite Hdig.
    f_equal; lia.
Qed.

(** X9: the decimal numeral the report prints for a number is read back as
    this number: for an integer that JavaScript holds exactly, [parseInt] of
    its text is the integer, and [parseInt] of the text of NaN is NaN. *)
Theorem parseInt_string_of_jsnum (n : jsnum) :
  safe_number n = true ->
  parseInt (string_of_jsnum n) = n.
Proof.
  intros _. destruct n as [z|]; [|reflexivity]. unfold string_of_jsnum.
  destruct z as [|p|p].
  - reflexivity.
  - simpl Z.to_int. unfold Pos.to_int.
    pose proof (Unsigned.to_uint_nonnil p) as Hnil.
    unfold NilZero.string_of_int, NilZero.string_of_uint.
    destruct (parseInt_uint (Pos.to_uint p) Hnil) as [H _].
    rewrite Unsigned.of_to in H.
    destruct (Pos.to_uint p); [congruence|..]; exact H.
  - simpl Z.to_int.
    pose proof (Unsigned.to_uint_nonnil p) as Hnil.
    unfold NilZero.string_of_int, NilZero.string_of_uint.
    destruct (parseInt_uint (Pos.to_uint p) Hnil) as [_ H].
    rewrite Unsigned.of_to in H.
    destruct (Pos.to_uint p); [congruence|..]; exact H.
Qed.

Lemma parseInt_string_of_jsnum_witness :
  parseInt (string_of_jsnum (Num 1975)) = Num 1975
  /\ parseInt (string_of_jsnum (Num (-12))) = Num (-12).
Proof.
  split; apply parseInt_string_of_jsnum; reflexivity.
Defined.

Lemma digits_stop (s : string) (c : ascii) (rest : string) (acc : option Z) :
  all_chars is_digit s = true -> is_digit c = false ->
  ParseInt.digits acc (s ++ String c rest) = ParseInt.digits acc s.
Proof.
  intros Hs Hc. revert acc. induction s as [|a s IH]; intros acc; simpl.
  - now rewrite Hc.
  - simpl in Hs. apply andb_true_iff in Hs as [Ha Hs]. rewrite Ha. now apply IH.
Qed.

(** X10: the views field is read up to its first character that is not a
    digit: what follows a run of digits does not change the number. *)
Theorem parseInt_leading_digits (s : string) (c : ascii) (rest : string) :
  s <> EmptyString ->
  all_chars is_digit s = true ->
  is_digit c = false ->
  parseInt (s ++ String c rest) = parseInt s.
Proof.
  intros Hne Hs Hc. destruct s as [|a s]; [congruence|].
  pose proof Hs as Hall. simpl in Hs. apply andb_true_iff in Hs as [Ha _].
  change ((String a s ++ String c rest)%string)
    with (String a (s ++ String c rest)).
  rewrite !parseInt_unsigned by assumption. unfold ParseInt.signed.
  change (String a (s ++ String c rest))
    with ((String a s ++ String c rest)%string).
  now rewrite digits_stop.
Qed.

Lemma parseInt_leading_digits_witness :
  parseInt ("1" ++ String "," "975") = parseInt "1".
Proof. apply parseInt_leading_digits; [discriminate|reflexivity|reflexivity]. Defined.

(** ** Content fetcher: requests, partial categories, defaults *)

Lemma find_first (f : string -> bool) (before : list string) (k : string)
  (after : list string) :
  forallb (fun x => negb (f x)) before = true -> f k = true ->
  find f (before ++ k :: after) = Some k.
Proof.
  induction before as [|x before IH]; simpl; intros Hb Hk.
  - now rewrite Hk.
  - apply andb_true_iff in Hb as [Hx Hb]. apply negb_true_iff in Hx.
    rewrite Hx. now apply IH.
Qed.

Section FetcherMore.

Variable World : Type.
Variable axios_get : World -> Request.t -> World * Response.
Variable iso_date : string -> option string.

Lemma responses_types (o : Options.t) (postTypes : list string) (w : World) :
  map fst (responses axios_get o postTypes w) = postTypes.
Proof.
  revert w. induction postTypes as [|postType rest IH]; intros w; simpl;
    [reflexivity|].
  destruct (axios_get w (request o postType)) as [w' response]. simpl.
  now rewrite IH.
Qed.

(** X11: the requests do not depend on the answers: the fetcher sends one
    request for each category, in the order of the list, each built from the
    options alone, and the state of the network after the call is the one
    these requests leave. *)
Theorem fetch_one_request_per_category (o : Options.t) (w : World) :
  fst (fetchWordPressPosts axios_get iso_date o w)
  = fold_left (fun w' postType => fst (axios_get w' (request o postType)))
              (Options.postTypes o) w
  /\ map fst (responses axios_get o (Options.postTypes o) w)
     = Options.postTypes o.
Proof.
  split; [|apply responses_types].
  unfold fetchWordPressPosts. generalize (@nil Entry.t) as allPosts.
  revert w. induction (Options.postTypes o) as [|postType rest IH];
    intros w allPosts; simpl; [reflexivity|].
  destruct (axios_get w (request o postType)) as [w' [message|data]];
    simpl; apply IH.
Qed.

(** X12: an item whose date does not convert ends its category: the result
    holds, category by category, the entries of the items that come before
    the first such item of a resolved response; this item and the items
    after it are left out, and the other categories are not affected. *)
Theorem fetch_stops_category_at_bad_date (o : Options.t) (w : World) :
  map Some (snd (fetchWordPressPosts axios_get iso_date o w))
  = flat_map
      (fun c => match snd c with
                | Rejected _ => []
                | Resolved data =>
                    map (format_post iso_date (views_of o) (fst c))
                        (convertible_prefix iso_date data)
                end)
      (responses axios_get o (Options.postTypes o) w).
Proof.
  unfold fetchWordPressPosts. rewrite fetch_loop_responses. simpl app.
  induction (responses axios_get o (Options.postTypes o) w)
    as [|[postType response] rs IH]; [reflexivity|].
  simpl flat_map. rewrite map_app, IH. f_equal.
  destruct response as [message|data]; [reflexivity|].
  apply push_posts_prefix.
Qed.

(** X13: every entry of the result has an author that is not empty
    (["Unknown"] in place of a missing or empty name) and a type that is
    one of the categories asked for. *)
Theorem fetch_entry_fields (o : Options.t) (w : World) :
  Forall (fun entry => Entry.author entry <> EmptyString
                       /\ In (Entry.type entry) (Options.postTypes o))
         (snd (fetchWordPressPosts axios_get iso_date o w)).
Proof.
  apply Forall_forall. intros entry H.
  apply fetch_entry_origin in H as [postType [data [post [Hin [_ H]]]]].
  assert (Htype : In postType (Options.postTypes o)).
  { rewrite <- (responses_types o (Options.postTypes o) w).
    apply in_map_iff. exists (postType, Resolved data). auto. }
  unfold format_post in H.
  destruct (matched_views _ _); [|discriminate].
  destruct (iso_date _); [|discriminate].
  inversion H; subst; simpl. split; [|exact Htype].
  unfold author_or_unknown, or_default.
  destruct (Post.author_name post) as [[|c n]|]; simpl; discriminate.
Qed.

(** X14: without a views mapping in the options every entry has 0
    views. *)
Theorem fetch_default_views (o : Options.t) (w : World) :
  Options.viewsData o = None ->
  Forall (fun entry => Entry.views entry = Num 0)
         (snd (fetchWordPressPosts axios_get iso_date o w)).
Proof.
  intros Hnone. apply Forall_forall. intros entry H.
  apply fetch_views_from_match in H as [H|[k [r [Hk _]]]]; [exact H|].
  unfold views_of in Hk. rewrite Hnone in Hk. destruct Hk.
Qed.

(** X15: the first key wins: when several keys of the mapping normalize to
    the normalized URL of an item, the entry takes the views recorded under
    the first of them in the order of [Object.keys], provided this key is
    not the empty string. *)
Theorem format_post_first_match (viewsData : Obj.t) (postType : string)
  (post : Post.t) (entry : Entry.t) (before : list string) (k : string)
  (after : list string) :
  Obj.keys viewsData = before ++ k :: after ->
  forallb (fun k' => negb (String.eqb (normalizeUrl k')
                                      (normalizeUrl (Post.link post))))
          before = true ->
  normalizeUrl k = normalizeUrl (Post.link post) ->
  truthy k = true ->
  format_post iso_date viewsData postType post = Some entry ->
  exists r, Obj.get viewsData k = Some r
            /\ Entry.views entry = View.views r.
Proof.
  intros Hkeys Hbefore Hk Htruthy H.
  apply format_post_views in H as [_ [_ H]].
  assert (Hfind : find_match viewsData (normalizeUrl (Post.link post)) = Some k).
  { unfold find_match. rewrite Hkeys.
    apply (find_first (fun url => String.eqb (normalizeUrl url)
                                     (normalizeUrl (Post.link post)))).
    - exact Hbefore.
    - now apply String.eqb_eq. }
  rewrite Hfind, Htruthy in H. destruct H as [_ [_ H]]. exact H.
Qed.

End FetcherMore.

Lemma fetch_default_views_witness :
  Forall (fun entry => Entry.views entry = Num 0)
         (snd (fetchWordPressPosts Sample.network Sample.iso_date
                 (Options.mk BASE_URL POST_TYPES None None None None) tt)).
Proof. apply fetch_default_views. reflexivity. Defined.

(** Two rows whose URLs differ in the day only: the item takes the views of
    the row that comes first. *)
Lemma format_post_first_match_witness :
  let viewsData :=
    Csv.viewsData (csvToJson [ ["With day"; "5"; "https://x.com/2024/12/03/post"];
                               ["Without day"; "7"; "https://x.com/2024/12/post"] ]) in
  exists r, Obj.get viewsData "https://x.com/2024/12/03/post" = Some r
            /\ Entry.views (Entry.mk 1 "Post" "2024-12-03" "Unknown"
                                     "https://x.com/2024/12/post/" "posts" (Num 5))
               = View.views r.
Proof.
  apply (format_post_first_match Sample.iso_date _ "posts"
           (Post.mk 1 "Post" "2024-12-03T12:00:00" None
                    "https://x.com/2024/12/post/")
           _ [] "https://x.com/2024/12/03/post" ["https://x.com/2024/12/post"]);
    reflexivity.
Defined.

(** ** Report renderer: pipes and repeated calls *)

Lemma count_char_app (c : ascii) (a b : string) :
  count_char c (a ++ b) = count_char c a + count_char c b.
Proof. induction a as [|x a IH]; simpl; [reflexivity|]. rewrite IH. lia. Qed.

Lemma escape_pipes_none (s : string) : count_char pipe (escape_pipes s) = 0.
Proof.
  induction s as [|c s IH]; simpl; [reflexivity|].
  destruct (Ascii.eqb c pipe) eqn:E; simpl; [exact IH|]. now rewrite E.
Qed.

Lemma string_of_uint_no_pipe (d : Decimal.uint) :
  count_char pipe (NilEmpty.string_of_uint d) = 0.
Proof. induction d; simpl; auto. Qed.

Lemma string_of_jsnum_no_pipe (n : jsnum) :
  count_char pipe (string_of_jsnum n) = 0.
Proof.
  destruct n as [z|]; [|reflexivity]. unfold string_of_jsnum.
  destruct (Z.to_int z) as [d|d]; simpl; unfold NilZero.string_of_uint;
    destruct d; try reflexivity; apply (string_of_uint_no_pipe (_ d)).
Qed.

(** X16: the title cannot break the table: a row of the report has the
    seven pipes of its six columns and, beyond them, only the pipes that
    occur in the date, the URL, the author and the type, which are written
    as they are. *)
Theorem markdown_row_pipes (post : Entry.t) :
  count_char pipe (markdown_row post)
  = 7 + count_char pipe (Entry.publication_date post)
    + count_char pipe (Entry.url post)
    + count_char pipe (Entry.author post)
    + count_char pipe (Entry.type post).
Proof.
  unfold markdown_row. rewrite !count_char_app.
  rewrite escape_pipes_none, !string_of_jsnum_no_pipe. simpl. lia.
Qed.

(** X17: rendering a second time changes nothing: a second call on the
    array the first call has sorted returns the same text and leaves every
    array as the first call left it. *)
Theorem generateMarkdownOutput_twice (posts : ref) (inputDate : string)
  (h : Heap) :
  let first := generateMarkdownOutput posts inputDate h in
  let second := generateMarkdownOutput posts inputDate (snd first) in
  fst second = fst first /\ forall r, snd second r = snd first r.
Proof.
  cbv zeta. rewrite !generateMarkdownOutput_lines. cbn [fst snd].
  assert (E : sorted_contents by_date
                (heap_set posts (sorted_contents by_date (h posts)) h posts)
              = sorted_contents by_date (h posts)).
  { unfold heap_set. rewrite Nat.eqb_refl.
    apply sorted_contents_fixed; [apply by_date_total|apply by_date_trans|].
    apply sorted_contents_sorted; [apply by_date_total|apply by_date_trans]. }
  rewrite E. split; [reflexivity|].
  intros r. unfold heap_set. now destruct (Nat.eqb r posts).
Qed.

(** ** Report file name: different dates, different files *)

Lemma append_cancel_r (a b c : string) :
  (a ++ c = b ++ c)%string -> a = b.
Proof.
  assert (Hlen : forall x y : string,
             String.length (x ++ y) = String.length x + String.length y).
  { intros x y. induction x as [|k x IH]; simpl; [reflexivity|]. now rewrite IH. }
  revert b. induction a as [|x a IH]; intros [|y b] H.
  - reflexivity.
  - apply (f_equal String.length) in H. rewrite !Hlen in H. simpl in H. lia.
  - apply (f_equal String.length) in H. rewrite !Hlen in H. simpl in H. lia.
  - simpl in H. injection H as -> H. f_equal. now apply IH.
Qed.

(** X19: two different date arguments that are not empty and hold only
    letters, digits, hyphens and underscores give different file names. *)
Theorem report_filename_injective (d1 d2 : string) :
  truthy d1 = true -> truthy d2 = true ->
  all_chars is_safe d1 = true -> all_chars is_safe d2 = true ->
  d1 <> d2 ->
  report_filename d1 <> report_filename d2.
Proof.
  intros T1 T2 S1 S2 Hne H. apply Hne.
  unfold report_filename, safeFilename, or_default in H.
  rewrite T1, T2, !keep_chars_app, (keep_chars_id _ d1 S1),
    (keep_chars_id _ d2 S2) in H.
  apply append_cancel_r in H. simpl in H. now injection H.
Qed.

Lemma report_filename_injective_witness :
  report_filename "2024-10-01" <> report_filename "2024_10_01".
Proof.
  apply report_filename_injective; try reflexivity. discriminate.
Defined.

(** ** Main: exit code, files and requests *)

Section MainFacts.

Variable Date_parse : string -> option string.
Variable readFile : string -> option string.
Variable writeFile : string -> string -> bool.
Variable parse : string -> option (list (list string)).
Variable stringify : Obj.t -> string.
Variable World : Type.
Variable axios_get : World -> Request.t -> World * Response.
Variable iso_date : string -> option string.


Lemma write_report_some (posts : list Entry.t) (dateInput : string) :
  posts <> [] ->
  fst (write_report 0 dateInput (heap_set 0 posts (fun _ => [])))
  = Some (report_filename dateInput,
          join newline (markdown_header (or_default dateInput "all")
                        ++ map markdown_row (sorted_contents by_date posts))).
Proof.
  intros Hne. unfold write_report.
  change (heap_set 0 posts (fun _ => []) 0) with posts.
  destruct posts as [|p posts]; [congruence|].
  cbn [List.length Nat.ltb Nat.leb].
  rewrite generateMarkdownOutput_lines. reflexivity.
Qed.

Lemma write_report_none (dateInput : string) :
  fst (write_report 0 dateInput (heap_set 0 [] (fun _ => []))) = None.
Proof. reflexivity. Qed.

Lemma write_report_name (posts : list Entry.t) (dateInput name markdown : string) :
  fst (write_report 0 dateInput (heap_set 0 posts (fun _ => [])))
  = Some (name, markdown) ->
  name = report_filename dateInput /\ posts <> [].
Proof.
  destruct posts as [|p posts]; [discriminate|].
  rewrite write_report_some by discriminate.
  intros H. injection H as <- _. split; [reflexivity|discriminate].
Qed.

Lemma fetch_all_rejected (o : Options.t) (postTypes : list string) (w : World)
  (allPosts : list Entry.t) :
  (forall w' r, exists message, snd (axios_get w' r) = Rejected message) ->
  snd (fetch_loop axios_get iso_date o postTypes w allPosts) = allPosts.
Proof.
  intros Hrej. revert w. induction postTypes as [|postType rest IH];
    intros w; simpl; [reflexivity|].
  destruct (Hrej w (request o postType)) as [message Hm].
  destruct (axios_get w (request o postType)) as [w' response].
  simpl in Hm. subst response. apply IH.
Qed.

(** X20: a date argument that is not empty and does not parse ends the run
    with the exit code 1 before any request is sent; no report is written,
    and the only file the run may have written is views_data.json, which
    is written before the date is looked at. *)
Theorem main_invalid_date (a : string) (w : World) :
  truthy a = true ->
  Date_parse a = None ->
  let r := main Date_parse readFile writeFile parse stringify axios_get
                iso_date (Some a) w in
  Run.exit_code r = 1
  /\ Run.world r = w
  /\ Forall (fun file => fst file = JSON_FILE) (Run.written r).
Proof.
  intros Ha Hd r. unfold r, main.
  destruct (readFile CSV_FILE) as [csvContent|]; [|repeat split; constructor].
  destruct (parse csvContent) as [records|]; [|repeat split; constructor].
  destruct (writeFile JSON_FILE _); [|repeat split; constructor].
  unfold after_date, parseDateInput, or_default. rewrite Ha, Ha, Hd.
  repeat split. repeat constructor.
Qed.

(** X21: a run writes at most two files: views_data.json first, then the
    report under the name made from the date argument. A run that writes
    nothing ends with the code 1 and has sent no request; a run that writes
    the report ends with the code 0. *)
Theorem main_files (argv2 : option string) (w : World) :
  let dateInput := match argv2 with Some a => a | None => EmptyString end in
  let r := main Date_parse readFile writeFile parse stringify axios_get
                iso_date argv2 w in
  match map fst (Run.written r) with
  | [] => Run.exit_code r = 1 /\ Run.world r = w
  | [name] => name = JSON_FILE
  | [name; report] =>
      name = JSON_FILE /\ report = report_filename dateInput
      /\ Run.exit_code r = 0
  | _ => False
  end.
Proof.
  cbv zeta. unfold main.
  destruct (readFile CSV_FILE) as [csvContent|]; [|split; reflexivity].
  destruct (parse csvContent) as [records|]; [|split; reflexivity].
  destruct (writeFile JSON_FILE _); [|split; reflexivity].
  assert (Hd : match argv2 with Some a => or_default a "" | None => "" end
               = match argv2 with Some a => a | None => "" end).
  { destruct argv2 as [[|c a]|]; reflexivity. }
  rewrite Hd. destruct (after_date _ _) as [afterDate|message]; [|reflexivity].
  destruct (fetchWordPressPosts _ _ _ _) as [w' posts].
  destruct (fst (write_report 0 _ _)) as [[name markdown]|] eqn:E;
    [|reflexivity].
  apply write_report_name in E as [-> _].
  destruct (writeFile _ markdown); simpl; auto.
Qed.

(** X22: a network failure is not an error of the run: when every request
    is rejected, and the CSV file is read and parsed, views_data.json is
    written and the date argument, if any, parses, the run ends with the
    exit code 0 and has written views_data.json and no report. *)
Theorem main_offline (argv2 : option string) (w : World)
  (csvContent : string) (records : list (list string))
  (afterDate : option string) :
  (forall w' r, exists message, snd (axios_get w' r) = Rejected message) ->
  readFile CSV_FILE = Some csvContent ->
  parse csvContent = Some records ->
  writeFile JSON_FILE (stringify (Csv.viewsData (csvToJson records))) = true ->
  after_date Date_parse
    (match argv2 with Some a => or_default a "" | None => "" end)
  = Ok afterDate ->
  let r := main Date_parse readFile writeFile parse stringify axios_get
                iso_date argv2 w in
  Run.exit_code r = 0
  /\ Run.written r
     = [(JSON_FILE, stringify (Csv.viewsData (csvToJson records)))].
Proof.
  intros Hrej Hread Hparse Hwrite Hdate r. unfold r, main.
  rewrite Hread, Hparse, Hwrite, Hdate.
  pose proof (fetch_all_rejected
                (Options.mk BASE_URL POST_TYPES afterDate None None
                   (Some (Csv.viewsData (csvToJson records))))
                POST_TYPES w [] Hrej) as Hposts.
  unfold fetchWordPressPosts. cbn [Options.postTypes].
  destruct (fetch_loop _ _ _ _ _ _) as [w' posts].
  simpl in Hposts. subst posts. rewrite write_report_none. split; reflexivity.
Qed.

(** X23: when the fetch returns entries, with publication dates of the
    form dddd-dd-dd, and the files can be written, the run ends with the
    exit code 0 and writes, after views_data.json, the report: its name is
    made from the date argument, its text is the header, with the date
    argument or [all] in the title, and one row for each entry, in
    ascending order of the publication dates. *)
Theorem main_report (argv2 : option string) (w w' : World)
  (csvContent : string) (records : list (list string))
  (afterDate : option string) (posts : list Entry.t) :
  let dateInput := match argv2 with Some a => or_default a "" | None => "" end in
  let viewsData := Csv.viewsData (csvToJson records) in
  (forall name data, writeFile name data = true) ->
  readFile CSV_FILE = Some csvContent ->
  parse csvContent = Some records ->
  after_date Date_parse dateInput = Ok afterDate ->
  fetchWordPressPosts axios_get iso_date
    (Options.mk BASE_URL POST_TYPES afterDate None None (Some viewsData)) w
  = (w', posts) ->
  posts <> [] ->
  iso_dates posts = true ->
  main Date_parse readFile writeFile parse stringify axios_get iso_date argv2 w
  = Run.mk 0
      [ (JSON_FILE, stringify viewsData);
        (report_filename dateInput,
         join newline (markdown_header (or_default dateInput "all")
                       ++ map markdown_row (sorted_contents by_date posts))) ]
      w'.
Proof.
  intros dateInput viewsData Hwrite Hread Hparse Hdate Hfetch Hposts _.
  unfold main. rewrite Hread, Hparse, Hwrite.
  fold viewsData. fold dateInput. rewrite Hdate, Hfetch.
  rewrite write_report_some by assumption. now rewrite Hwrite.
Qed.

End MainFacts.

Lemma main_invalid_date_witness :
  Run.exit_code (main SampleRun.Date_parse SampleRun.readFile
                      SampleRun.writeFile SampleRun.parse SampleRun.stringify
                      SampleRun.online Sample.iso_date (Some "yesterday") 0) = 1
  /\ Run.world (main SampleRun.Date_parse SampleRun.readFile
                     SampleRun.writeFile SampleRun.parse SampleRun.stringify
                     SampleRun.online Sample.iso_date (Some "yesterday") 0) = 0
  /\ Forall (fun file => fst file = JSON_FILE)
       (Run.written (main SampleRun.Date_parse SampleRun.readFile
                          SampleRun.writeFile SampleRun.parse
                          SampleRun.stringify SampleRun.online
                          Sample.iso_date (Some "yesterday") 0)).
Proof.
  apply (main_invalid_date SampleRun.Date_parse SampleRun.readFile
           SampleRun.writeFile SampleRun.parse SampleRun.stringify nat
           SampleRun.online Sample.iso_date "yesterday" 0); reflexivity.
Defined.

Lemma main_offline_witness :
  Run.exit_code (main SampleRun.Date_parse SampleRun.readFile
                      SampleRun.writeFile SampleRun.parse SampleRun.stringify
                      SampleRun.offline Sample.iso_date (Some "2024-10-01") 0) = 0
  /\ Run.written (main SampleRun.Date_parse SampleRun.readFile
                       SampleRun.writeFile SampleRun.parse SampleRun.stringify
                       SampleRun.offline Sample.iso_date (Some "2024-10-01") 0)
     = [(JSON_FILE, "{}")].
Proof.
  apply (main_offline SampleRun.Date_parse SampleRun.readFile
           SampleRun.writeFile SampleRun.parse SampleRun.stringify nat
           SampleRun.offline Sample.iso_date (Some "2024-10-01") 0
           "rows" SampleRun.records (Some "2024-10-01T00:00:00.000Z"));
    try reflexivity.
  intros w' r. now exists "getaddrinfo ENOTFOUND".
Defined.

Lemma main_report_witness :
  map fst (Run.written
             (main SampleRun.Date_parse SampleRun.readFile SampleRun.writeFile
                   SampleRun.parse SampleRun.stringify SampleRun.online
                   Sample.iso_date (Some "2024-10-01") 0))
  = [JSON_FILE; "devblognews-2024-10-01.md"].
Proof.
  rewrite (main_report SampleRun.Date_parse SampleRun.readFile
             SampleRun.writeFile SampleRun.parse SampleRun.stringify nat
             SampleRun.online Sample.iso_date (Some "2024-10-01") 0 3
             "rows" SampleRun.records (Some "2024-10-01T00:00:00.000Z")
             (snd (fetchWordPressPosts SampleRun.online Sample.iso_date
                     (Options.mk BASE_URL POST_TYPES
                        (Some "2024-10-01T00:00:00.000Z") None None
                        (Some (Csv.viewsData (csvToJson SampleRun.records))))
                     0)));
    try reflexivity.
  discriminate.
Defined.

(** ** Order of the keys *)

Lemma index_keys_none (ks : list string) :
  no_index_key ks = true -> Obj.index_keys ks = [].
Proof.
  unfold no_index_key. induction ks as [|k ks IH]; [reflexivity|]. simpl.
  destruct (Obj.array_index k); [discriminate|]. exact IH.
Qed.

Lemma keys_insertion_order (o : Obj.t) :
  no_index_key (map fst (Obj.own o)) = true ->
  Obj.keys o = map fst (Obj.own o).
Proof.
  intros H. unfold Obj.keys. rewrite index_keys_none by assumption. simpl.
  unfold no_index_key in H.
  induction (map fst (Obj.own o)) as [|k ks IH]; [reflexivity|].
  simpl in *. apply andb_true_iff in H as [Hk Hks].
  destruct (Obj.array_index k); [discriminate|]. now rewrite IH.
Qed.

Lemma existsb_eqb_in (k : string) (l : list string) :
  existsb (String.eqb k) l = true <-> In k l.
Proof.
  rewrite existsb_exists. split.
  - intros [x [Hx E]]. apply String.eqb_eq in E. now subst x.
  - intros H. exists k. split; [exact H|apply String.eqb_refl].
Qed.

Lemma csvToJson_own_order (records : list (list string)) :
  map fst (Obj.own (Csv.viewsData (csvToJson records))) = first_seen records.
Proof.
  unfold first_seen.
  induction records as [|row records IH] using rev_ind; [reflexivity|].
  rewrite csvToJson_snoc, fold_left_app. simpl fold_left. rewrite <- IH.
  destruct row as [|title [|views [|url extra]]]; try reflexivity.
  cbn [csv_row Csv.viewsData row_key]. unfold add_key.
  set (o := Csv.viewsData (csvToJson records)).
  destruct (set_keys (cleanUrl url) (row_record title views) o)
    as [[E Hcase]|[E [Hnew Hproto]]]; rewrite E.
  - destruct Hcase as [Hin|Hp].
    + apply existsb_eqb_in in Hin. now rewrite Hin.
    + rewrite Hp. simpl. now rewrite orb_true_r.
  - destruct (existsb _ _) eqn:Ex.
    + apply existsb_eqb_in in Ex. contradiction.
    + apply String.eqb_neq in Hproto. now rewrite Hproto.
Qed.

(** X18: when no cleaned URL is an array index (a canonical numeral, which
    a URL is not), [Object.keys] lists the keys of the imported mapping in
    the order in which the rows bring them up: a URL that comes again keeps
    the place of its first row. *)
Theorem csvToJson_keys_order (records : list (list string)) :
  no_index_key (first_seen records) = true ->
  Obj.keys (Csv.viewsData (csvToJson records)) = first_seen records.
Proof.
  intros H. rewrite <- csvToJson_own_order in *.
  now apply keys_insertion_order.
Qed.

Lemma csvToJson_keys_order_witness :
  Obj.keys (Csv.viewsData
              (csvToJson [ ["B"; "1"; "https://x.com/b"];
                           ["A"; "2"; "https://x.com/a/"];
                           ["short"];
                           ["B again"; "3"; "https://x.com/b/"] ]))
  = ["https://x.com/b"; "https://x.com/a"].
Proof. apply csvToJson_keys_order. reflexivity. Defined.
